(** * statsBuilder.h: the statistics registry of MARSS (ptlsim/stats)

    A shallow embedding of [ptlsim/stats/statsBuilder.h]: the offset
    allocator [StatsBuilder::get_offset], the scalar descriptor
    [StatObj<T>], the array descriptor [StatArray<T,size>], and the
    registry tree [Statable], over a byte-addressed store in which the
    [Stats] arenas live.

    Conventions.
    - [W64] values and pointers are integers in [0, 2^64); W64 arithmetic
      wraps.  [NULL] is the pointer 0.
    - The template parameter [T] is an unsigned integer type of
      [sizeofT] bytes (W8, W16, W32, W64 of globals.h), stored
      little-endian as on x86; arithmetic on [T] wraps at [8*sizeofT] bits.
    - [assert] is ptlsim's always-on assertion: a failed assertion ends the
      run ([AssertFail]).  Touching a byte that no arena owns, dereferencing
      [NULL] and dividing by zero are undefined in C++ ([Undef]). *)

From Stdlib Require Import ZArith Lia String Ascii List DecimalString.
From stdpp Require Import base option list gmap.

Set Warnings "-register-all".

Local Open Scope Z_scope.

(* ===================================================================== *)
(** ** Outcomes and the store monad                                       *)
(* ===================================================================== *)

Inductive result (A : Type) : Type :=
  | Ok (a : A)
  | AssertFail
  | Undef.
Arguments Ok {A} a.
Arguments AssertFail {A}.
Arguments Undef {A}.

(** The store: one byte (a number in [0,256)) per owned address. *)
Abbreviation heap := (gmap Z Z).

Definition M (A : Type) : Type := heap -> result (A * heap).

Definition ret {A} (a : A) : M A := fun h => Ok (a, h).

Definition bind {A B} (m : M A) (k : A -> M B) : M B :=
  fun h => match m h with
           | Ok (a, h') => k a h'
           | AssertFail => AssertFail
           | Undef => Undef
           end.

Notation "x <- m ;; k" := (bind m (fun x => k))
  (at level 100, m at next level, right associativity).
Notation "m ;;; k" := (bind m (fun _ => k))
  (at level 100, right associativity).

(** [assert(c)] *)
Definition assert (c : bool) : M unit :=
  fun h => if c then Ok (tt, h) else AssertFail.

Definition undefined {A} : M A := fun _ => Undef.

(** [for (i = 0; i < n; i++) body], the [foreach(i, n)] of globals.h; [s]
    is what the body updates from one round to the next (the stream it
    writes to, or nothing but the store). *)
Fixpoint foreach_from {S} (i : Z) (n : nat) (body : Z -> S -> M S) (s : S)
  : M S :=
  match n with
  | O => ret s
  | S n' => s' <- body i s ;; foreach_from (i + 1) n' body s'
  end.

Definition foreach {S} (n : Z) (body : Z -> S -> M S) (s : S) : M S :=
  foreach_from 0 (Z.to_nat n) body s.


(* ===================================================================== *)
(** ** Machine integers                                                   *)
(* ===================================================================== *)

Definition wrap64 (z : Z) : Z := z mod 2 ^ 64.

(** Conversion to [int] (32-bit two's complement). *)
Definition to_int (z : Z) : Z := (z + 2 ^ 31) mod 2 ^ 32 - 2 ^ 31.

(** Values of a [T] of [sz] bytes. *)
Definition wrapT (sz : Z) (v : Z) : Z := v mod 256 ^ sz.

(** Little-endian bytes of a value, and back. *)
Fixpoint le_bytes (n : nat) (v : Z) : list Z :=
  match n with
  | O => []
  | S n' => v mod 256 :: le_bytes n' (v / 256)
  end.

Fixpoint le_value (bs : list Z) : Z :=
  match bs with
  | [] => 0
  | b :: bs' => b + 256 * le_value bs'
  end.

(* ===================================================================== *)
(** ** Byte-addressed store                                               *)
(* ===================================================================== *)

Fixpoint read_bytes (h : heap) (a : Z) (n : nat) : option (list Z) :=
  match n with
  | O => Some []
  | S n' =>
      match h !! a, read_bytes h (a + 1) n' with
      | Some b, Some bs => Some (b :: bs)
      | _, _ => None
      end
  end.

Fixpoint write_bytes (h : heap) (a : Z) (bs : list Z) : option heap :=
  match bs with
  | [] => Some h
  | b :: bs' =>
      match h !! a with
      | Some _ => write_bytes (<[a := b]> h) (a + 1) bs'
      | None => None
      end
  end.

(** [*(T* )p] as an rvalue. *)
Definition peek (h : heap) (p sz : Z) : option Z :=
  le_value <$> read_bytes h p (Z.to_nat sz).

(** [*(T* )p = v]. *)
Definition poke (h : heap) (p sz v : Z) : option heap :=
  write_bytes h p (le_bytes (Z.to_nat sz) v).

Definition load (p sz : Z) : M Z :=
  fun h => match peek h p sz with
           | Some v => Ok (v, h)
           | None => Undef
           end.

Definition store (p sz v : Z) : M unit :=
  fun h => match poke h p sz v with
           | Some h' => Ok (tt, h')
           | None => Undef
           end.

(** The bytes [a, a+n) all belong to some arena. *)
Definition allocated (h : heap) (a n : Z) : Prop :=
  forall i, a <= i < a + n -> is_Some (h !! i).

(** [n] zero bytes at [a] added to the store. *)
Fixpoint zero_fill (h : heap) (a : Z) (n : nat) : heap :=
  match n with
  | O => h
  | S n' => <[a := 0]> (zero_fill h (a + 1) n')
  end.

(* ===================================================================== *)
(** ** Output sinks                                                       *)
(* ===================================================================== *)

(** Modelled from the spec: the stream insertion of a counter value
    (superstl.h is not part of the sources); the spec's example dump,
    [hits: 3] and [latency_hist: 0 0 7 0], shows it as a decimal numeral. *)
Definition show (v : Z) : string :=
  NilZero.string_of_uint (N.to_uint (Z.to_N v)).

(** An [ostream] is the text written to it so far. *)
Abbreviation ostream := string.

(** ["\n"] *)
Definition newline : string := String "010" EmptyString.

(** What a [YAML::Emitter] has been sent so far: the manipulators of
    yaml-cpp and the scalars, in order. *)
Inductive yaml_item : Type :=
  | YKey | YValue | YFlow | YBlock | YBeginSeq | YEndSeq
  | YScalar (s : string).

Abbreviation Emitter := (list yaml_item).

(** [operator << (YAML::Emitter&, const W64)]: the value goes through a
    [stringbuf] and is emitted as that text. *)
Definition emit_W64 (out : Emitter) (value : Z) : Emitter :=
  out ++ [YScalar (show value)].

(* ===================================================================== *)
(** ** Data model                                                         *)
(* ===================================================================== *)

Definition STATS_SIZE : Z := 1024 * 10.

(** [class Stats]: the arena; [mem] is a [W8*]. *)
Module Stats.
Record t : Type := mk { mem : Z }.
End Stats.

(** A [Stats*]; [None] is [NULL]. *)
Abbreviation StatsPtr := (option Stats.t).

(** [class StatObjBase].  The back pointer [parent] is stored by the
    constructor and never read in this header; it is left out. *)
Module StatObjBase.
Record t : Type := mk { default_stats : StatsPtr; name : string }.
End StatObjBase.

(** [class StatObj<T>]; [sizeofT] stands for the template parameter. *)
Module StatObj.
Record t : Type := mk {
  super : StatObjBase.t;
  sizeofT : Z;
  offset : Z;
  default_var : Z
}.
End StatObj.

(** [class StatArray<T, size>]. *)
Module StatArray.
Record t : Type := mk {
  super : StatObjBase.t;
  sizeofT : Z;
  size : Z;
  offset : Z;
  default_var : Z
}.
End StatArray.

(** A [StatObjBase*] held by a [Statable]: the two classes that derive
    from [StatObjBase]. *)
Inductive Leaf : Type :=
  | LeafObj (o : StatObj.t)
  | LeafArr (a : StatArray.t).

(** [class Statable]: the registry node. *)
Module Statable.
Inductive t : Type := mk {
  childNodes : list t;
  leafs : list Leaf;
  name : string;
  default_stats : StatsPtr
}.
End Statable.

(** [class StatsBuilder]. *)
Module StatsBuilder.
Record t : Type := mk { rootNode : Statable.t; stat_offset : Z }.
End StatsBuilder.

(* ===================================================================== *)
(** ** Stats, Statable and StatsBuilder                                   *)
(* ===================================================================== *)

(** [W64 base() { return (W64)mem; }] *)
Definition Stats_base (s : Stats.t) : Z := Stats.mem s.

(** [void add_child_node(Statable *child) { childNodes.push(child); }] *)
Definition Statable_add_child_node (child : Statable.t) (n : Statable.t)
  : Statable.t :=
  Statable.mk (Statable.childNodes n ++ [child]) (Statable.leafs n)
              (Statable.name n) (Statable.default_stats n).

(** [void add_leaf(StatObjBase *edge) { leafs.push(edge); }] *)
Definition Statable_add_leaf (edge : Leaf) (n : Statable.t) : Statable.t :=
  Statable.mk (Statable.childNodes n) (Statable.leafs n ++ [edge])
              (Statable.name n) (Statable.default_stats n).

(** [Stats* get_default_stats() { return default_stats; }] *)
Definition Statable_get_default_stats (n : Statable.t) : StatsPtr :=
  Statable.default_stats n.

(** [StatsBuilder()]: an empty root and the cursor at zero. *)
Definition StatsBuilder_ctor : StatsBuilder.t :=
  StatsBuilder.mk (Statable.mk [] [] EmptyString None) 0.

(** [W64 get_offset(int size)]:
    ret_val = stat_offset; stat_offset += size;
    assert(stat_offset < STATS_SIZE); return ret_val.
    The cursor is a W64, so the addition of the (sign-extended) [int]
    wraps at 2^64. *)
Definition StatsBuilder_get_offset (size : Z) (b : StatsBuilder.t)
  : result (Z * StatsBuilder.t) :=
  let ret_val := StatsBuilder.stat_offset b in
  let b' := StatsBuilder.mk (StatsBuilder.rootNode b)
                            (wrap64 (StatsBuilder.stat_offset b + size)) in
  if StatsBuilder.stat_offset b' <? STATS_SIZE
  then Ok (ret_val, b')
  else AssertFail.

(** [void add_to_root(Statable *statable)]; the two assertions are on
    pointers that the model always has. *)
Definition StatsBuilder_add_to_root (statable : Statable.t)
    (b : StatsBuilder.t) : StatsBuilder.t :=
  StatsBuilder.mk (Statable_add_child_node statable (StatsBuilder.rootNode b))
                  (StatsBuilder.stat_offset b).

(** Modelled from the spec: StatsBuilder::get_new_stats, defined outside
    this header; "a zero-initialized byte block of exactly capacity bytes",
    sized to the capacity ceiling.  The address [mem] stands for what the
    allocator returns. *)
Definition StatsBuilder_get_new_stats (mem : Z) (h : heap) : Stats.t * heap :=
  (Stats.mk mem, zero_fill h mem (Z.to_nat STATS_SIZE)).

(* ===================================================================== *)
(** ** StatObjBase                                                        *)
(* ===================================================================== *)

(** [StatObjBase(const char *name, Statable *parent)]: takes the parent's
    default arena.  The [parent->add_leaf(this)] half is done by the
    constructors of the derived classes below, where the finished object
    is known. *)
Definition StatObjBase_ctor (name : string) (parent : Statable.t)
  : StatObjBase.t :=
  StatObjBase.mk (Statable_get_default_stats parent) name.

(** Modelled from the spec: StatObjBase::set_default_stats, declared here
    and defined outside this header; "rebinds which arena this
    descriptor's arithmetic resolves against". *)
Definition StatObjBase_set_default_stats (stats : StatsPtr)
    (o : StatObjBase.t) : StatObjBase.t :=
  StatObjBase.mk stats (StatObjBase.name o).

(* ===================================================================== *)
(** ** StatObj<T>                                                         *)
(* ===================================================================== *)

(** [set_default_var_ptr]:
    if(default_stats) default_var = (T* )(default_stats->base() + offset);
    else default_var = NULL. *)
Definition StatObj_set_default_var_ptr (d : StatObj.t) : StatObj.t :=
  StatObj.mk (StatObj.super d) (StatObj.sizeofT d) (StatObj.offset d)
    match StatObjBase.default_stats (StatObj.super d) with
    | Some s => wrap64 (Stats_base s + StatObj.offset d)
    | None => 0
    end.

(** [StatObj(const char *name, Statable *parent)]: the base constructor,
    [offset = builder.get_offset(sizeof(T))], [set_default_var_ptr()].
    Returns the descriptor, the parent with the new leaf, and the builder. *)
Definition StatObj_ctor (name : string) (sizeofT : Z)
    (parent : Statable.t) (builder : StatsBuilder.t)
  : result (StatObj.t * Statable.t * StatsBuilder.t) :=
  let super := StatObjBase_ctor name parent in
  match StatsBuilder_get_offset (to_int sizeofT) builder with
  | Ok (offset, builder') =>
      let d := StatObj_set_default_var_ptr (StatObj.mk super sizeofT offset 0) in
      Ok (d, Statable_add_leaf (LeafObj d) parent, builder')
  | AssertFail => AssertFail
  | Undef => Undef
  end.

(** [void set_default_stats(Stats *stats)] *)
Definition StatObj_set_default_stats (stats : StatsPtr) (d : StatObj.t)
  : StatObj.t :=
  StatObj_set_default_var_ptr
    (StatObj.mk (StatObjBase_set_default_stats stats (StatObj.super d))
                (StatObj.sizeofT d) (StatObj.offset d) (StatObj.default_var d)).

(** [assert(p)] on a pointer. *)
Definition assert_ptr (p : Z) : M unit := assert (negb (p =? 0)).

(** [T operator++(int)]: assert(default_var); T ret = ( *default_var)++. *)
Definition StatObj_post_inc (d : StatObj.t) : M Z :=
  let sz := StatObj.sizeofT d in
  assert_ptr (StatObj.default_var d) ;;;
  v <- load (StatObj.default_var d) sz ;;
  store (StatObj.default_var d) sz (wrapT sz (v + 1)) ;;;
  ret v.

(** [T operator++()]: ( *default_var)++; return ( *default_var). *)
Definition StatObj_pre_inc (d : StatObj.t) : M Z :=
  let sz := StatObj.sizeofT d in
  assert_ptr (StatObj.default_var d) ;;;
  v <- load (StatObj.default_var d) sz ;;
  store (StatObj.default_var d) sz (wrapT sz (v + 1)) ;;;
  load (StatObj.default_var d) sz.

(** [T operator--(int)] *)
Definition StatObj_post_dec (d : StatObj.t) : M Z :=
  let sz := StatObj.sizeofT d in
  assert_ptr (StatObj.default_var d) ;;;
  v <- load (StatObj.default_var d) sz ;;
  store (StatObj.default_var d) sz (wrapT sz (v - 1)) ;;;
  ret v.

(** [T operator--()] *)
Definition StatObj_pre_dec (d : StatObj.t) : M Z :=
  let sz := StatObj.sizeofT d in
  assert_ptr (StatObj.default_var d) ;;;
  v <- load (StatObj.default_var d) sz ;;
  store (StatObj.default_var d) sz (wrapT sz (v - 1)) ;;;
  load (StatObj.default_var d) sz.

(** The four arithmetic operators of [T]; [/] by zero is undefined. *)
Inductive binop : Type := Plus | Minus | Times | Divide.

Definition binop_value (op : binop) (sz x y : Z) : Z :=
  match op with
  | Plus => wrapT sz (x + y)
  | Minus => wrapT sz (x - y)
  | Times => wrapT sz (x * y)
  | Divide => wrapT sz (x / y)
  end.

Definition binop_defined (op : binop) (y : Z) : bool :=
  match op with
  | Divide => negb (y =? 0)
  | _ => true
  end.

Definition eval_binop (op : binop) (sz x y : Z) : M Z :=
  if binop_defined op y then ret (binop_value op sz x y) else undefined.

(** [T operator+(const T &b) const] and its siblings [-], [*], [/]:
    assert(default_var); T ret = ( *default_var) op b; return ret. *)
Definition StatObj_binop (op : binop) (d : StatObj.t) (b : Z) : M Z :=
  assert_ptr (StatObj.default_var d) ;;;
  v <- load (StatObj.default_var d) (StatObj.sizeofT d) ;;
  eval_binop op (StatObj.sizeofT d) v b.

(** [T operator+(const StatObj<T> &statObj) const] and its siblings:
    assert(default_var); assert(statObj.default_var);
    T ret = ( *default_var) op ( *statObj.default_var); return ret. *)
Definition StatObj_binop_obj (op : binop) (d statObj : StatObj.t) : M Z :=
  assert_ptr (StatObj.default_var d) ;;;
  assert_ptr (StatObj.default_var statObj) ;;;
  v <- load (StatObj.default_var d) (StatObj.sizeofT d) ;;
  w <- load (StatObj.default_var statObj) (StatObj.sizeofT d) ;;
  eval_binop op (StatObj.sizeofT d) v w.

(** [T& operator()(Stats *stats) const]:
    return *(T* )(stats->base() + offset).  The reference is the address. *)
Definition StatObj_call (d : StatObj.t) (stats : StatsPtr) : M Z :=
  match stats with
  | Some s => ret (wrap64 (Stats_base s + StatObj.offset d))
  | None => undefined
  end.

(** [ostream& dump(ostream& os, Stats *stats) const]:
    T var = ( *this)(stats); os << name << ":" << var << "\n". *)
Definition StatObj_dump (d : StatObj.t) (os : ostream) (stats : StatsPtr)
  : M ostream :=
  p <- StatObj_call d stats ;;
  var <- load p (StatObj.sizeofT d) ;;
  ret (os ++ StatObjBase.name (StatObj.super d) ++ ":" ++ show var
          ++ newline)%string.

(** [YAML::Emitter& dump(YAML::Emitter &out, Stats *stats) const]:
    assert(default_var); T var = ( *this)(stats);
    out << YAML::Key << (char * )name; out << YAML::Value << var. *)
Definition StatObj_dump_yaml (d : StatObj.t) (out : Emitter) (stats : StatsPtr)
  : M Emitter :=
  assert_ptr (StatObj.default_var d) ;;;
  p <- StatObj_call d stats ;;
  var <- load p (StatObj.sizeofT d) ;;
  ret (emit_W64
         (out ++ [YKey; YScalar (StatObjBase.name (StatObj.super d)); YValue])
         var).

(** [void add_stats(Stats& dest_stats, Stats& src_stats)]:
    T& dest_var = ( *this)(&dest_stats); dest_var += ( *this)(&src_stats). *)
Definition StatObj_add_stats (d : StatObj.t) (dest_stats src_stats : Stats.t)
  : M unit :=
  let sz := StatObj.sizeofT d in
  dest_var <- StatObj_call d (Some dest_stats) ;;
  src_var <- StatObj_call d (Some src_stats) ;;
  s <- load src_var sz ;;
  v <- load dest_var sz ;;
  store dest_var sz (wrapT sz (v + s)).

(* ===================================================================== *)
(** ** StatArray<T, size>                                                 *)
(* ===================================================================== *)

(** [set_default_var_ptr], as in [StatObj]. *)
Definition StatArray_set_default_var_ptr (a : StatArray.t) : StatArray.t :=
  StatArray.mk (StatArray.super a) (StatArray.sizeofT a) (StatArray.size a)
    (StatArray.offset a)
    match StatObjBase.default_stats (StatArray.super a) with
    | Some s => wrap64 (Stats_base s + StatArray.offset a)
    | None => 0
    end.

(** [StatArray(const char *name, Statable *parent)]:
    [offset = builder.get_offset(sizeof(T) * size)]; the product is a
    [size_t] and is converted to the [int] parameter. *)
Definition StatArray_ctor (name : string) (sizeofT size : Z)
    (parent : Statable.t) (builder : StatsBuilder.t)
  : result (StatArray.t * Statable.t * StatsBuilder.t) :=
  let super := StatObjBase_ctor name parent in
  match StatsBuilder_get_offset (to_int (wrap64 (sizeofT * size))) builder with
  | Ok (offset, builder') =>
      let a := StatArray_set_default_var_ptr
                 (StatArray.mk super sizeofT size offset 0) in
      Ok (a, Statable_add_leaf (LeafArr a) parent, builder')
  | AssertFail => AssertFail
  | Undef => Undef
  end.

(** [void set_default_stats(Stats *stats)] *)
Definition StatArray_set_default_stats (stats : StatsPtr) (a : StatArray.t)
  : StatArray.t :=
  StatArray_set_default_var_ptr
    (StatArray.mk (StatObjBase_set_default_stats stats (StatArray.super a))
       (StatArray.sizeofT a) (StatArray.size a) (StatArray.offset a)
       (StatArray.default_var a)).

(** [T& operator[](const int index)]:
    assert(index < size); assert(default_var);
    return *(T* )(default_var + (index * sizeof(T))).
    [default_var] is a [T*], so the sum advances by
    [index * sizeof(T)] elements of [sizeof(T)] bytes each; the product
    [index * sizeof(T)] is computed in [size_t]. *)
Definition StatArray_index (a : StatArray.t) (index : Z) : M Z :=
  let sz := StatArray.sizeofT a in
  assert (index <? StatArray.size a) ;;;
  assert_ptr (StatArray.default_var a) ;;;
  ret (wrap64 (StatArray.default_var a + wrap64 (index * sz) * sz)).

(** [BaseArr& operator()(Stats *stats) const]:
    return *(BaseArr* )(stats->base() + offset). *)
Definition StatArray_call (a : StatArray.t) (stats : StatsPtr) : M Z :=
  match stats with
  | Some s => ret (wrap64 (Stats_base s + StatArray.offset a))
  | None => undefined
  end.

(** [arr[i]] for a [BaseArr& arr]: element [i] of a [T[size]]. *)
Definition BaseArr_at (arr sz i : Z) : Z := arr + i * sz.

(** [ostream& dump(ostream &os, Stats *stats) const]:
    os << name << ": "; BaseArr& arr = ( *this)(stats);
    foreach(i, size) { os << arr[i] << " "; }  os << "\n". *)
Definition StatArray_dump (a : StatArray.t) (os : ostream) (stats : StatsPtr)
  : M ostream :=
  let sz := StatArray.sizeofT a in
  let os := (os ++ StatObjBase.name (StatArray.super a) ++ ": ")%string in
  arr <- StatArray_call a stats ;;
  os <- foreach (StatArray.size a)
          (fun i os => v <- load (BaseArr_at arr sz i) sz ;;
                       ret (os ++ show v ++ " ")%string) os ;;
  ret (os ++ newline)%string.

(** [YAML::Emitter& dump(YAML::Emitter &out, Stats *stats) const]:
    out << Key << name; out << Value; out << Flow; out << BeginSeq;
    foreach(i, size) { out << arr[i]; }  out << EndSeq; out << Block. *)
Definition StatArray_dump_yaml (a : StatArray.t) (out : Emitter)
    (stats : StatsPtr) : M Emitter :=
  let sz := StatArray.sizeofT a in
  let out := out ++ [YKey; YScalar (StatObjBase.name (StatArray.super a));
                     YValue; YFlow; YBeginSeq] in
  arr <- StatArray_call a stats ;;
  out <- foreach (StatArray.size a)
           (fun i out => v <- load (BaseArr_at arr sz i) sz ;;
                         ret (emit_W64 out v)) out ;;
  ret (out ++ [YEndSeq; YBlock]).

(** [void add_stats(Stats& dest_stats, Stats& src_stats)]:
    foreach(i, size) { dest_arr[i] += src_arr[i]; } *)
Definition StatArray_add_stats (a : StatArray.t)
    (dest_stats src_stats : Stats.t) : M unit :=
  let sz := StatArray.sizeofT a in
  dest_arr <- StatArray_call a (Some dest_stats) ;;
  src_arr <- StatArray_call a (Some src_stats) ;;
  foreach (StatArray.size a)
    (fun i _ => s <- load (BaseArr_at src_arr sz i) sz ;;
                v <- load (BaseArr_at dest_arr sz i) sz ;;
                store (BaseArr_at dest_arr sz i) sz (wrapT sz (v + s))) tt.

(* ===================================================================== *)
(** ** Virtual calls through StatObjBase, and the tree walks               *)
(* ===================================================================== *)

(** [virtual void add_stats(Stats&, Stats&) = 0] *)
Definition Leaf_add_stats (l : Leaf) (dest_stats src_stats : Stats.t)
  : M unit :=
  match l with
  | LeafObj o => StatObj_add_stats o dest_stats src_stats
  | LeafArr a => StatArray_add_stats a dest_stats src_stats
  end.

(** Run [f] on each element in order. *)
Fixpoint for_each {A} (f : A -> M unit) (l : list A) : M unit :=
  match l with
  | [] => ret tt
  | x :: l' => f x ;;; for_each f l'
  end.

(** Modelled from the spec: Statable::add_stats, declared here and defined
    outside this header; "depth-first traversal identical in order to
    dump, invoking each leaf's merge_into": the node's leaves in
    registration order, then each child node in registration order. *)
Fixpoint Statable_add_stats (n : Statable.t) (dest_stats src_stats : Stats.t)
  : M unit :=
  for_each (fun l => Leaf_add_stats l dest_stats src_stats) (Statable.leafs n) ;;;
  (fix children (cs : list Statable.t) : M unit :=
     match cs with
     | [] => ret tt
     | c :: cs' => Statable_add_stats c dest_stats src_stats ;;; children cs'
     end) (Statable.childNodes n).

(** [void add_stats(Stats& dest_stats, Stats& src_stats)
      { rootNode->add_stats(dest_stats, src_stats); }] *)
Definition StatsBuilder_add_stats (b : StatsBuilder.t)
    (dest_stats src_stats : Stats.t) : M unit :=
  Statable_add_stats (StatsBuilder.rootNode b) dest_stats src_stats.

(** [Stats& Stats::operator+=(Stats& rhs_stats)]:
    (StatsBuilder::get()).add_stats( *this, rhs_stats); the singleton is
    passed as [builder]. *)
Definition Stats_add_assign (builder : StatsBuilder.t) (this rhs_stats : Stats.t)
  : M unit :=
  StatsBuilder_add_stats builder this rhs_stats.

(* ===================================================================== *)
(** ** Declaring counters                                                 *)
(* ===================================================================== *)

(** Sequencing of fallible steps that do not touch the store. *)
Definition result_bind {A B} (r : result A) (k : A -> result B) : result B :=
  match r with
  | Ok a => k a
  | AssertFail => AssertFail
  | Undef => Undef
  end.

(** A counter declaration: which class is instantiated, with what template
    arguments, under which parent. *)
Inductive decl : Type :=
  | DeclObj (name : string) (sizeofT : Z) (parent : Statable.t)
  | DeclArr (name : string) (sizeofT size : Z) (parent : Statable.t).

Definition construct (d : decl) (builder : StatsBuilder.t)
  : result (Leaf * StatsBuilder.t) :=
  match d with
  | DeclObj name sizeofT parent =>
      result_bind (StatObj_ctor name sizeofT parent builder)
        (fun '(o, _, builder') => Ok (LeafObj o, builder'))
  | DeclArr name sizeofT size parent =>
      result_bind (StatArray_ctor name sizeofT size parent builder)
        (fun '(a, _, builder') => Ok (LeafArr a, builder'))
  end.

(** The declarations run one after the other against the same builder. *)
Fixpoint construct_all (ds : list decl) (builder : StatsBuilder.t)
  : result (list Leaf * StatsBuilder.t) :=
  match ds with
  | [] => Ok ([], builder)
  | d :: ds' =>
      result_bind (construct d builder) (fun '(l, builder1) =>
      result_bind (construct_all ds' builder1) (fun '(ls, builder2) =>
      Ok (l :: ls, builder2)))
  end.

(** The template arguments describe a type that exists and whose size the
    [int] parameter of [get_offset] can carry. *)
Definition decl_wf (d : decl) : Prop :=
  match d with
  | DeclObj _ sizeofT _ => 0 < sizeofT < 2 ^ 31
  | DeclArr _ sizeofT size _ => 0 < sizeofT /\ 0 <= size /\ sizeofT * size < 2 ^ 31
  end.

(** The descriptor has the class and the template arguments of its
    declaration. *)
Definition leaf_of_decl (d : decl) (l : Leaf) : Prop :=
  match d, l with
  | DeclObj _ sizeofT _, LeafObj o => StatObj.sizeofT o = sizeofT
  | DeclArr _ sizeofT size _, LeafArr a =>
      StatArray.sizeofT a = sizeofT /\ StatArray.size a = size
  | _, _ => False
  end.

(* ===================================================================== *)
(** ** The layout of an arena                                             *)
(* ===================================================================== *)

Definition Leaf_offset (l : Leaf) : Z :=
  match l with
  | LeafObj o => StatObj.offset o
  | LeafArr a => StatArray.offset a
  end.

Definition Leaf_sizeofT (l : Leaf) : Z :=
  match l with
  | LeafObj o => StatObj.sizeofT o
  | LeafArr a => StatArray.sizeofT a
  end.

(** Number of elements: one for a scalar. *)
Definition Leaf_count (l : Leaf) : Z :=
  match l with
  | LeafObj _ => 1
  | LeafArr a => StatArray.size a
  end.

(** [sizeof(T)] for a scalar, [sizeof(T) * size] for an array. *)
Definition Leaf_bytes (l : Leaf) : Z := Leaf_sizeofT l * Leaf_count l.

(** The byte ranges [offset, offset + bytes) of two descriptors do not
    overlap. *)
Definition Leaf_apart (A B : Leaf) : Prop :=
  Leaf_offset A + Leaf_bytes A <= Leaf_offset B \/
  Leaf_offset B + Leaf_bytes B <= Leaf_offset A.

Definition pairwise_apart (ls : list Leaf) : Prop :=
  forall (i j : nat) A B, i <> j -> ls !! i = Some A -> ls !! j = Some B ->
  Leaf_apart A B.

(** A leaf lies inside the arena. *)
Definition Leaf_fits (l : Leaf) : Prop :=
  0 < Leaf_sizeofT l /\ 0 <= Leaf_count l /\
  0 <= Leaf_offset l /\ Leaf_offset l + Leaf_bytes l <= STATS_SIZE.

(** The layout the builder hands out: leaves inside the arena, no two of
    them overlapping. *)
Definition layout_ok (ls : list Leaf) : Prop :=
  Forall Leaf_fits ls /\ pairwise_apart ls.

(** The leaves a merge or a dump visits, in visiting order. *)
Fixpoint Statable_all_leaves (n : Statable.t) : list Leaf :=
  Statable.leafs n ++
  (fix children (cs : list Statable.t) : list Leaf :=
     match cs with
     | [] => []
     | c :: cs' => Statable_all_leaves c ++ children cs'
     end) (Statable.childNodes n).

(** A cell of the layout: byte offset and width of one [T]. *)
Definition cell_offset (c : Z * Z) : Z := fst c.
Definition cell_size (c : Z * Z) : Z := snd c.

(** The cells of [T[n]] at offset [o], from element [i] on. *)
Fixpoint cells_from (o sz i : Z) (n : nat) : list (Z * Z) :=
  match n with
  | O => []
  | S n' => (o + i * sz, sz) :: cells_from o sz (i + 1) n'
  end.

Definition Leaf_cells (l : Leaf) : list (Z * Z) :=
  match l with
  | LeafObj o => [(StatObj.offset o, StatObj.sizeofT o)]
  | LeafArr a =>
      cells_from (StatArray.offset a) (StatArray.sizeofT a) 0
                 (Z.to_nat (StatArray.size a))
  end.

Definition cell_apart (c1 c2 : Z * Z) : Prop :=
  cell_offset c1 + cell_size c1 <= cell_offset c2 \/
  cell_offset c2 + cell_size c2 <= cell_offset c1.

Definition cell_fits (c : Z * Z) : Prop :=
  0 <= cell_offset c /\ 0 < cell_size c /\
  cell_offset c + cell_size c <= STATS_SIZE.

(** [dest += src] on one cell. *)
Definition add_cell (dest_stats src_stats : Stats.t) (c : Z * Z) : M unit :=
  s <- load (Stats_base src_stats + cell_offset c) (cell_size c) ;;
  v <- load (Stats_base dest_stats + cell_offset c) (cell_size c) ;;
  store (Stats_base dest_stats + cell_offset c) (cell_size c)
        (wrapT (cell_size c) (v + s)).

(* ===================================================================== *)
(** ** Arenas in the store                                                *)
(* ===================================================================== *)

(** The address range of an arena does not wrap and does not start at
    [NULL]. *)
Definition arena_range (s : Stats.t) : Prop :=
  0 < Stats_base s /\ Stats_base s + STATS_SIZE <= 2 ^ 64.

(** A live arena: [STATS_SIZE] owned bytes at a non-null address. *)
Definition arena_ok (s : Stats.t) (h : heap) : Prop :=
  0 < Stats_base s /\ Stats_base s + STATS_SIZE <= 2 ^ 64 /\
  allocated h (Stats_base s) STATS_SIZE.

(** Two arenas are different blocks. *)
Definition arenas_apart (X Y : Stats.t) : Prop :=
  Stats_base X + STATS_SIZE <= Stats_base Y \/
  Stats_base Y + STATS_SIZE <= Stats_base X.

(** Where a descriptor with default arena [stats] and offset [offset]
    points: the arena's base plus the offset, or [NULL]. *)
Definition resolved (stats : StatsPtr) (offset : Z) : Z :=
  match stats with
  | Some s => wrap64 (Stats_base s + offset)
  | None => 0
  end.

(** [T var = ( *this)(stats)]: the counter's value in an arena. *)
Definition StatObj_value (d : StatObj.t) (stats : StatsPtr) : M Z :=
  p <- StatObj_call d stats ;; load p (StatObj.sizeofT d).

(** [( *this)(stats)[i]] *)
Definition StatArray_value (a : StatArray.t) (stats : StatsPtr) (i : Z) : M Z :=
  arr <- StatArray_call a stats ;;
  load (BaseArr_at arr (StatArray.sizeofT a) i) (StatArray.sizeofT a).

(** Element [i] of a leaf in an arena. *)
Definition Leaf_value (l : Leaf) (stats : Stats.t) (i : Z) : M Z :=
  match l with
  | LeafObj o => StatObj_value o (Some stats)
  | LeafArr a => StatArray_value a (Some stats) i
  end.

(** The elements [arr[i]], [i] from [from] on, [n] of them. *)
Fixpoint peek_elems (h : heap) (arr sz from : Z) (n : nat) : option (list Z) :=
  match n with
  | O => Some []
  | S n' =>
      match peek h (BaseArr_at arr sz from) sz, peek_elems h arr sz (from + 1) n' with
      | Some v, Some vs => Some (v :: vs)
      | _, _ => None
      end
  end.

(** What a run returns, the store left aside. *)
Definition outcome {A} (r : result (A * heap)) : result A :=
  match r with
  | Ok (a, _) => Ok a
  | AssertFail => AssertFail
  | Undef => Undef
  end.

(** The store a run ends with. *)
Definition final_heap {A} (r : result (A * heap)) : heap :=
  match r with
  | Ok (_, h) => h
  | _ => ∅
  end.

(* ===================================================================== *)
(** ** Calls on a descriptor after its construction                        *)
(* ===================================================================== *)

Inductive StatObj_op : Type :=
  | OpSetDefaultStats (stats : StatsPtr)
  | OpPostInc | OpPreInc | OpPostDec | OpPreDec
  | OpBin (op : binop) (b : Z)
  | OpBinObj (op : binop) (statObj : StatObj.t)
  | OpCall (stats : StatsPtr)
  | OpDump (os : ostream) (stats : StatsPtr)
  | OpDumpYaml (out : Emitter) (stats : StatsPtr)
  | OpAddStats (dest_stats src_stats : Stats.t).

(** One call; the descriptor after it.  [set_default_stats] is the one
    member function that assigns to a member. *)
Definition StatObj_invoke (op : StatObj_op) (d : StatObj.t) : M StatObj.t :=
  match op with
  | OpSetDefaultStats stats => ret (StatObj_set_default_stats stats d)
  | OpPostInc => StatObj_post_inc d ;;; ret d
  | OpPreInc => StatObj_pre_inc d ;;; ret d
  | OpPostDec => StatObj_post_dec d ;;; ret d
  | OpPreDec => StatObj_pre_dec d ;;; ret d
  | OpBin op b => StatObj_binop op d b ;;; ret d
  | OpBinObj op statObj => StatObj_binop_obj op d statObj ;;; ret d
  | OpCall stats => StatObj_call d stats ;;; ret d
  | OpDump os stats => StatObj_dump d os stats ;;; ret d
  | OpDumpYaml out stats => StatObj_dump_yaml d out stats ;;; ret d
  | OpAddStats dest_stats src_stats =>
      StatObj_add_stats d dest_stats src_stats ;;; ret d
  end.

Fixpoint StatObj_run (ops : list StatObj_op) (d : StatObj.t) : M StatObj.t :=
  match ops with
  | [] => ret d
  | op :: ops' => d' <- StatObj_invoke op d ;; StatObj_run ops' d'
  end.

(** Increment and decrement through the default target. *)
Definition is_inc_dec (op : StatObj_op) : bool :=
  match op with
  | OpPostInc | OpPreInc | OpPostDec | OpPreDec => true
  | _ => false
  end.

Inductive StatArray_op : Type :=
  | ArrSetDefaultStats (stats : StatsPtr)
  | ArrIndex (index : Z)
  | ArrCall (stats : StatsPtr)
  | ArrDump (os : ostream) (stats : StatsPtr)
  | ArrDumpYaml (out : Emitter) (stats : StatsPtr)
  | ArrAddStats (dest_stats src_stats : Stats.t).

Definition StatArray_invoke (op : StatArray_op) (a : StatArray.t)
  : M StatArray.t :=
  match op with
  | ArrSetDefaultStats stats => ret (StatArray_set_default_stats stats a)
  | ArrIndex index => StatArray_index a index ;;; ret a
  | ArrCall stats => StatArray_call a stats ;;; ret a
  | ArrDump os stats => StatArray_dump a os stats ;;; ret a
  | ArrDumpYaml out stats => StatArray_dump_yaml a out stats ;;; ret a
  | ArrAddStats dest_stats src_stats =>
      StatArray_add_stats a dest_stats src_stats ;;; ret a
  end.

Fixpoint StatArray_run (ops : list StatArray_op) (a : StatArray.t)
  : M StatArray.t :=
  match ops with
  | [] => ret a
  | op :: ops' => a' <- StatArray_invoke op a ;; StatArray_run ops' a'
  end.

(** The arena a descriptor resolves against after a sequence of calls: the
    one of its last [set_default_stats], or the one it had before them. *)
Fixpoint StatObj_chosen (ops : list StatObj_op) (cur : StatsPtr) : StatsPtr :=
  match ops with
  | [] => cur
  | OpSetDefaultStats stats :: ops' => StatObj_chosen ops' stats
  | _ :: ops' => StatObj_chosen ops' cur
  end.

Fixpoint StatArray_chosen (ops : list StatArray_op) (cur : StatsPtr) : StatsPtr :=
  match ops with
  | [] => cur
  | ArrSetDefaultStats stats :: ops' => StatArray_chosen ops' stats
  | _ :: ops' => StatArray_chosen ops' cur
  end.

(** [arr[i] = i] for every [i] below [size], through [operator[]]. *)
Definition StatArray_fill_indices (a : StatArray.t) : M unit :=
  foreach (StatArray.size a)
    (fun i _ => p <- StatArray_index a i ;; store p (StatArray.sizeofT a) i) tt.

(* ===================================================================== *)
(** ** The text formats                                                   *)
(* ===================================================================== *)

(** As the specification words them. *)
Definition spec_scalar_text (name : string) (v : Z) : string :=
  (name ++ ": " ++ show v ++ newline)%string.

Fixpoint spec_join (vs : list Z) : string :=
  match vs with
  | [] => EmptyString
  | [v] => show v
  | v :: vs' => (show v ++ " " ++ spec_join vs')%string
  end.

Definition spec_array_text (name : string) (vs : list Z) : string :=
  (name ++ ": " ++ spec_join vs ++ newline)%string.

(** As the code writes them. *)
Definition scalar_text (name : string) (v : Z) : string :=
  (name ++ ":" ++ show v ++ newline)%string.

Fixpoint spaced (vs : list Z) : string :=
  match vs with
  | [] => EmptyString
  | v :: vs' => (show v ++ " " ++ spaced vs')%string
  end.

Definition array_text (name : string) (vs : list Z) : string :=
  (name ++ ": " ++ spaced vs ++ newline)%string.

(** What the YAML dump of an array sends for the elements [vs]: key, value,
    and a flow sequence of the elements. *)
Definition yaml_seq (name : string) (vs : list Z) : Emitter :=
  [YKey; YScalar name; YValue; YFlow; YBeginSeq]
  ++ map (fun v => YScalar (show v)) vs ++ [YEndSeq; YBlock].

(* ===================================================================== *)
(** ** A small registry and two arenas                                    *)
(* ===================================================================== *)

Definition arena_X : Stats.t := Stats.mk 65536.
Definition arena_Y : Stats.t := Stats.mk 131072.

(** One fresh arena in an empty store; two of them. *)
Definition one_arena : heap := snd (StatsBuilder_get_new_stats 65536 ∅).

Definition two_arenas : heap :=
  snd (StatsBuilder_get_new_stats 131072
         (snd (StatsBuilder_get_new_stats 65536 ∅))).

(** The first 64 bytes of each, for runs that touch no more. *)
Definition two_slots : heap :=
  zero_fill (zero_fill ∅ 65536 64) 131072 64.

(** The registry of the specification's example: a node [cache] under the
    root, with the scalar [hits] and the array [latency_hist] of four. *)
Definition cache_hits : StatObj.t :=
  StatObj.mk (StatObjBase.mk None "hits") 8 0 0.

Definition cache_latency_hist : StatArray.t :=
  StatArray.mk (StatObjBase.mk None "latency_hist") 8 4 8 0.

Definition cache_builder : StatsBuilder.t :=
  StatsBuilder_add_to_root
    (Statable.mk [] [LeafObj cache_hits; LeafArr cache_latency_hist] "cache" None)
    (StatsBuilder.mk (StatsBuilder.rootNode StatsBuilder_ctor) 40).

(* ===================================================================== *)
(** ** Further programs and measures                                      *)
(* ===================================================================== *)

(** What one call adds to the counter it goes through. *)
Definition inc_dec_delta (op : StatObj_op) : Z :=
  match op with
  | OpPostInc | OpPreInc => 1
  | OpPostDec | OpPreDec => -1
  | _ => 0
  end.

Fixpoint net_delta (ops : list StatObj_op) : Z :=
  match ops with
  | [] => 0
  | op :: ops' => inc_dec_delta op + net_delta ops'
  end.

(** The member functions of [StatObj] that start with
    [assert(default_var)]. *)
Definition asserts_default_var (op : StatObj_op) : bool :=
  match op with
  | OpPostInc | OpPreInc | OpPostDec | OpPreDec
  | OpBin _ _ | OpBinObj _ _ | OpDumpYaml _ _ => true
  | _ => false
  end.

(** The bytes a declaration asks the builder for. *)
Definition decl_bytes (d : decl) : Z :=
  match d with
  | DeclObj _ sizeofT _ => sizeofT
  | DeclArr _ sizeofT size _ => sizeofT * size
  end.

Fixpoint total_bytes (ds : list decl) : Z :=
  match ds with
  | [] => 0
  | d :: ds' => decl_bytes d + total_bytes ds'
  end.

(** The use the comment of [operator()] gives,
    [cache.read.hit(kernel_stats)++]: a post-increment through the
    reference that [operator()] returns. *)
Definition StatObj_call_post_inc (d : StatObj.t) (stats : StatsPtr) : M Z :=
  let sz := StatObj.sizeofT d in
  p <- StatObj_call d stats ;;
  v <- load p sz ;;
  store p sz (wrapT sz (v + 1)) ;;;
  ret v.

(** [arr[index] = v] through [operator[]]. *)
Definition StatArray_assign (a : StatArray.t) (index v : Z) : M unit :=
  p <- StatArray_index a index ;; store p (StatArray.sizeofT a) v.

(** The values [i mod 256], [i] from [i] on, [n] of them: what bytes hold
    after [i] was written to each. *)
Fixpoint low_bytes_from (i : Z) (n : nat) : list Z :=
  match n with
  | O => []
  | S n' => i mod 256 :: low_bytes_from (i + 1) n'
  end.

(* ===================================================================== *)
(** * Properties                                                          *)
(* ===================================================================== *)

(** ** Little-endian values *)

Lemma le_bytes_length n v : length (le_bytes n v) = n.
Proof. revert v; induction n as [|n IH]; intros v; simpl; [done|]. by rewrite IH. Qed.

Lemma le_value_le_bytes n v :
  le_value (le_bytes n v) = v mod 256 ^ Z.of_nat n.
Proof.
  revert v; induction n as [|n IH]; intros v.
  - simpl. by rewrite Z.mod_1_r.
  - cbn [le_bytes le_value]. rewrite IH, Nat2Z.inj_succ, Z.pow_succ_r by lia.
    rewrite Z.rem_mul_r; lia.
Qed.

(** ** Reading and writing runs of bytes *)

Lemma read_bytes_ext (h1 h2 : heap) a n :
  (forall i, a <= i < a + Z.of_nat n -> h1 !! i = h2 !! i) ->
  read_bytes h1 a n = read_bytes h2 a n.
Proof.
  revert a; induction n as [|n IH]; intros a Hag; [done|].
  cbn [read_bytes]. rewrite (Hag a) by lia.
  rewrite (IH (a + 1)); [done|]. intros i Hi. apply Hag. lia.
Qed.

Lemma read_bytes_allocated (h : heap) a n :
  allocated h a (Z.of_nat n) -> is_Some (read_bytes h a n).
Proof.
  revert a; induction n as [|n IH]; intros a Hal; [by eexists|].
  cbn [read_bytes]. destruct (Hal a) as [b ->]; [lia|].
  destruct (IH (a + 1)) as [bs ->]; [|by eexists].
  intros i Hi. apply Hal. lia.
Qed.

Lemma write_bytes_outside (h h' : heap) a bs i :
  write_bytes h a bs = Some h' ->
  i < a \/ a + Z.of_nat (length bs) <= i ->
  h' !! i = h !! i.
Proof.
  revert h a; induction bs as [|b bs IH]; intros h a Hw Hi.
  - simpl in Hw. by inversion Hw.
  - cbn [write_bytes] in Hw. destruct (h !! a) eqn:Ha; [|done].
    rewrite (IH _ _ Hw); [|cbn [length] in Hi; lia].
    apply lookup_insert_ne. cbn [length] in Hi. lia.
Qed.

Lemma write_bytes_dom (h h' : heap) a bs i :
  write_bytes h a bs = Some h' -> is_Some (h' !! i) <-> is_Some (h !! i).
Proof.
  revert h a; induction bs as [|b bs IH]; intros h a Hw.
  - simpl in Hw. by inversion Hw.
  - cbn [write_bytes] in Hw. destruct (h !! a) eqn:Ha; [|done].
    rewrite (IH _ _ Hw). destruct (decide (a = i)) as [->|Hne].
    + rewrite lookup_insert_eq, Ha. split; by eexists.
    + by rewrite lookup_insert_ne.
Qed.

Lemma write_bytes_allocated (h : heap) a bs :
  allocated h a (Z.of_nat (length bs)) -> is_Some (write_bytes h a bs).
Proof.
  revert h a; induction bs as [|b bs IH]; intros h a Hal; [by eexists|].
  cbn [write_bytes]. destruct (Hal a) as [b0 ->]; [cbn [length]; lia|].
  apply IH. intros i Hi. destruct (decide (a = i)) as [->|Hne].
  - rewrite lookup_insert_eq. by eexists.
  - rewrite lookup_insert_ne by done. apply Hal. cbn [length]. lia.
Qed.

Lemma read_write_bytes (h h' : heap) a bs :
  write_bytes h a bs = Some h' -> read_bytes h' a (length bs) = Some bs.
Proof.
  revert h a; induction bs as [|b bs IH]; intros h a Hw; [done|].
  cbn [write_bytes] in Hw. destruct (h !! a) eqn:Ha; [|done].
  cbn [length read_bytes]. rewrite (IH _ _ Hw).
  rewrite (write_bytes_outside _ _ _ _ a Hw) by lia.
  by rewrite lookup_insert_eq.
Qed.

(** ** Typed cells *)

Lemma peek_ext (h1 h2 : heap) p sz :
  (forall i, p <= i < p + sz -> h1 !! i = h2 !! i) ->
  peek h1 p sz = peek h2 p sz.
Proof.
  intros Hag. unfold peek. f_equal. apply read_bytes_ext.
  intros i Hi. apply Hag. lia.
Qed.

Lemma peek_allocated (h : heap) p sz :
  allocated h p sz -> is_Some (peek h p sz).
Proof.
  intros Hal. unfold peek.
  destruct (read_bytes_allocated h p (Z.to_nat sz)) as [bs ->]; [|by eexists].
  intros i Hi. apply Hal. lia.
Qed.

Lemma poke_allocated (h : heap) p sz v :
  allocated h p sz -> is_Some (poke h p sz v).
Proof.
  intros Hal. unfold poke. apply write_bytes_allocated.
  rewrite le_bytes_length. intros i Hi. apply Hal. lia.
Qed.

Lemma poke_outside (h h' : heap) p sz v i :
  poke h p sz v = Some h' -> ~ (p <= i < p + sz) -> h' !! i = h !! i.
Proof.
  unfold poke. intros Hw Hi. apply (write_bytes_outside _ _ _ _ _ Hw).
  rewrite le_bytes_length. lia.
Qed.

Lemma poke_dom (h h' : heap) p sz v i :
  poke h p sz v = Some h' -> is_Some (h' !! i) <-> is_Some (h !! i).
Proof. unfold poke. apply write_bytes_dom. Qed.

Lemma poke_keeps_allocated (h h' : heap) p sz v a n :
  poke h p sz v = Some h' -> allocated h a n -> allocated h' a n.
Proof. intros Hw Hal i Hi. apply (poke_dom _ _ _ _ _ _ Hw), Hal, Hi. Qed.

Lemma peek_poke_same (h h' : heap) p sz v :
  0 <= sz -> poke h p sz v = Some h' -> peek h' p sz = Some (wrapT sz v).
Proof.
  unfold poke, peek, wrapT. intros Hsz Hw.
  pose proof (read_write_bytes _ _ _ _ Hw) as Hr.
  rewrite le_bytes_length in Hr. rewrite Hr. cbn.
  by rewrite le_value_le_bytes, Z2Nat.id.
Qed.

Lemma peek_poke_disjoint (h h' : heap) p sz v q sz' :
  poke h p sz v = Some h' -> q + sz' <= p \/ p + sz <= q ->
  peek h' q sz' = peek h q sz'.
Proof.
  intros Hw Hd. apply peek_ext. intros i Hi.
  apply (poke_outside _ _ _ _ _ _ Hw). lia.
Qed.

Lemma wrapT_idem (sz v : Z) : wrapT sz (wrapT sz v) = wrapT sz v.
Proof. unfold wrapT. apply Zmod_mod. Qed.

Lemma read_bytes_Some_allocated (h : heap) a n bs :
  read_bytes h a n = Some bs -> allocated h a (Z.of_nat n).
Proof.
  revert a bs. induction n as [|n IH]; intros a bs Hr i Hi; [lia|].
  cbn [read_bytes] in Hr.
  destruct (h !! a) as [b|] eqn:Hb; [|done].
  destruct (read_bytes h (a + 1) n) as [bs'|] eqn:Hbs; [|done].
  destruct (decide (i = a)) as [->|Hne]; [by eexists|].
  apply (IH (a + 1) bs' Hbs). lia.
Qed.

Lemma peek_Some_allocated (h : heap) p sz v :
  peek h p sz = Some v -> allocated h p sz.
Proof.
  unfold peek. destruct (read_bytes h p (Z.to_nat sz)) as [bs|] eqn:Hr; [|done].
  intros _ i Hi. apply (read_bytes_Some_allocated _ _ _ _ Hr). lia.
Qed.

(** ** The offset allocator *)

Lemma get_offset_ok (b : StatsBuilder.t) (size : Z) :
  0 <= StatsBuilder.stat_offset b + size < STATS_SIZE ->
  StatsBuilder_get_offset size b =
    Ok (StatsBuilder.stat_offset b,
        StatsBuilder.mk (StatsBuilder.rootNode b) (StatsBuilder.stat_offset b + size)).
Proof.
  intros Hr. unfold StatsBuilder_get_offset, wrap64, STATS_SIZE in *. cbn.
  rewrite Z.mod_small by lia.
  destruct (Z.ltb_spec (StatsBuilder.stat_offset b + size) (1024 * 10)); [done|lia].
Qed.

Lemma get_offset_abort (b : StatsBuilder.t) (size : Z) :
  0 <= StatsBuilder.stat_offset b < STATS_SIZE -> - 2 ^ 31 <= size < 2 ^ 31 ->
  ~ (0 <= StatsBuilder.stat_offset b + size < STATS_SIZE) ->
  StatsBuilder_get_offset size b = AssertFail.
Proof.
  intros Hc Hs Hr. unfold StatsBuilder_get_offset, wrap64, STATS_SIZE in *. cbn.
  destruct (Z.ltb_spec ((StatsBuilder.stat_offset b + size) mod 2 ^ 64) (1024 * 10))
    as [Hlt|]; [|done].
  exfalso. destruct (Z_lt_le_dec (StatsBuilder.stat_offset b + size) 0).
  - rewrite <- (Z.mod_add _ 1) in Hlt by lia.
    rewrite Z.mod_small in Hlt by lia. lia.
  - rewrite Z.mod_small in Hlt by lia. lia.
Qed.

Lemma to_int_small z : - 2 ^ 31 <= z < 2 ^ 31 -> to_int z = z.
Proof. intros Hz. unfold to_int. rewrite Z.mod_small by lia. lia. Qed.

Lemma wrap64_small z : 0 <= z < 2 ^ 64 -> wrap64 z = z.
Proof. intros Hz. unfold wrap64. by rewrite Z.mod_small. Qed.

(** C2, as stated, fails: a fresh builder asked for exactly [STATS_SIZE]
    bytes would leave the cursor exactly at the ceiling, and the assertion
    [stat_offset < STATS_SIZE] ends the run. *)
Lemma C2_exact_ceiling_aborts :
  wrap64 (StatsBuilder.stat_offset StatsBuilder_ctor + STATS_SIZE) = STATS_SIZE /\
  StatsBuilder_get_offset STATS_SIZE StatsBuilder_ctor = AssertFail.
Proof. split; reflexivity. Qed.

(** C2, amended: on a builder whose cursor is below the ceiling, a
    reservation succeeds, returning the old cursor and advancing it by
    [size], when the advanced cursor stays strictly below [STATS_SIZE]; a
    reservation that would leave the cursor at the ceiling or past it
    aborts. *)
Theorem C2_capacity_enforcement (b : StatsBuilder.t) (size : Z) :
  0 <= StatsBuilder.stat_offset b < STATS_SIZE ->
  - 2 ^ 31 <= size < 2 ^ 31 ->
  (0 <= StatsBuilder.stat_offset b + size < STATS_SIZE ->
   StatsBuilder_get_offset size b =
     Ok (StatsBuilder.stat_offset b,
         StatsBuilder.mk (StatsBuilder.rootNode b)
                         (StatsBuilder.stat_offset b + size))) /\
  (STATS_SIZE <= StatsBuilder.stat_offset b + size ->
   StatsBuilder_get_offset size b = AssertFail).
Proof.
  intros Hc Hs. split; intros Hr.
  - by apply get_offset_ok.
  - apply get_offset_abort; lia.
Qed.

(** C2, amended, on a fresh builder and on one whose cursor is 8 bytes below
    the ceiling. *)
Lemma C2_capacity_enforcement_witness :
  StatsBuilder_get_offset 8 StatsBuilder_ctor =
    Ok (0, StatsBuilder.mk (StatsBuilder.rootNode StatsBuilder_ctor) 8) /\
  StatsBuilder_get_offset 8 (StatsBuilder.mk (StatsBuilder.rootNode StatsBuilder_ctor) 10232)
    = AssertFail.
Proof.
  split.
  - apply (C2_capacity_enforcement StatsBuilder_ctor 8); vm_compute; intuition discriminate.
  - apply (C2_capacity_enforcement
             (StatsBuilder.mk (StatsBuilder.rootNode StatsBuilder_ctor) 10232) 8);
      vm_compute; intuition discriminate.
Defined.

(** ** Construction of descriptors *)

Lemma Leaf_apart_sym A B : Leaf_apart A B -> Leaf_apart B A.
Proof. unfold Leaf_apart. tauto. Qed.

Lemma ForallOrdPairs_lookup {A} (R : A -> A -> Prop) (l : list A) :
  (forall x y, R x y -> R y x) ->
  ForallOrdPairs R l ->
  forall (i j : nat) x y, i <> j -> l !! i = Some x -> l !! j = Some y -> R x y.
Proof.
  intros Hsym Hl. induction Hl as [|a l Ha Hl IH]; intros i j x y Hij Hi Hj.
  - by rewrite lookup_nil in Hi.
  - rewrite Forall_forall in Ha.
    destruct i as [|i], j as [|j]; cbn in Hi, Hj; simplify_eq.
    + apply Ha. eapply list_elem_of_lookup_2, Hj.
    + apply Hsym, Ha. eapply list_elem_of_lookup_2, Hi.
    + eapply (IH i j); eauto.
Qed.

Lemma construct_spec (d : decl) (b b' : StatsBuilder.t) (l : Leaf) :
  decl_wf d ->
  0 <= StatsBuilder.stat_offset b < STATS_SIZE ->
  construct d b = Ok (l, b') ->
  leaf_of_decl d l /\
  Leaf_offset l = StatsBuilder.stat_offset b /\
  StatsBuilder.stat_offset b' = StatsBuilder.stat_offset b + Leaf_bytes l /\
  (0 < Leaf_sizeofT l /\ 0 <= Leaf_count l /\ 0 <= Leaf_bytes l) /\
  StatsBuilder.stat_offset b' < STATS_SIZE.
Proof.
  intros Hwf Hc Hrun.
  destruct d as [nm sz parent | nm sz n parent]; cbn in Hwf, Hrun.
  - unfold StatObj_ctor in Hrun. rewrite to_int_small in Hrun by lia.
    destruct (decide (StatsBuilder.stat_offset b + sz < STATS_SIZE)) as [Hlt|Hge].
    + rewrite get_offset_ok in Hrun by lia. cbn in Hrun. simplify_eq.
      unfold Leaf_bytes; cbn. repeat split; lia.
    + rewrite get_offset_abort in Hrun by lia. done.
  - unfold StatArray_ctor in Hrun.
    assert (0 <= sz * n) by nia.
    rewrite wrap64_small, to_int_small in Hrun by lia.
    destruct (decide (StatsBuilder.stat_offset b + sz * n < STATS_SIZE)) as [Hlt|Hge].
    + rewrite get_offset_ok in Hrun by lia. cbn in Hrun. simplify_eq.
      unfold Leaf_bytes; cbn. repeat split; lia.
    + rewrite get_offset_abort in Hrun by lia. done.
Qed.

Lemma construct_all_spec (ds : list decl) (b b' : StatsBuilder.t) (ls : list Leaf) :
  Forall decl_wf ds ->
  0 <= StatsBuilder.stat_offset b < STATS_SIZE ->
  construct_all ds b = Ok (ls, b') ->
  Forall2 leaf_of_decl ds ls /\
  StatsBuilder.stat_offset b <= StatsBuilder.stat_offset b' < STATS_SIZE /\
  Forall (fun l => StatsBuilder.stat_offset b <= Leaf_offset l /\
                   (0 < Leaf_sizeofT l /\ 0 <= Leaf_count l /\ 0 <= Leaf_bytes l) /\
                   Leaf_offset l + Leaf_bytes l <= StatsBuilder.stat_offset b') ls /\
  ForallOrdPairs Leaf_apart ls.
Proof.
  intros Hwf. revert b ls.
  induction Hwf as [|d ds Hd Hds IH]; intros b ls Hc Hrun.
  - cbn in Hrun. simplify_eq. repeat split; try constructor; lia.
  - cbn [construct_all] in Hrun.
    destruct (construct d b) as [[l b1]| |] eqn:Hone; cbn in Hrun; try done.
    destruct (construct_all ds b1) as [[ls' b2]| |] eqn:Hrest; cbn in Hrun; try done.
    simplify_eq.
    destruct (construct_spec _ _ _ _ Hd Hc Hone) as (Hk & Hoff & Hcur & Hnn & Hlt).
    destruct (IH b1 ls') as (Hks & Hmono & Hin & Hap); [lia|done|].
    repeat split; try lia.
    + by constructor.
    + constructor; [repeat split; lia|].
      eapply Forall_impl; [exact Hin|]. cbn. intros l' (? & ? & ?).
      repeat split; (done || lia).
    + constructor; [|done]. eapply Forall_impl; [exact Hin|].
      intros l' (Hl' & _). unfold Leaf_apart. left. lia.
Qed.

(** What the builder hands out is a layout in which a merge is sound. *)
Lemma constructed_layout_ok (ds : list decl) (b b' : StatsBuilder.t) (ls : list Leaf) :
  Forall decl_wf ds ->
  0 <= StatsBuilder.stat_offset b < STATS_SIZE ->
  construct_all ds b = Ok (ls, b') ->
  layout_ok ls.
Proof.
  intros Hwf Hc Hrun.
  destruct (construct_all_spec _ _ _ _ Hwf Hc Hrun) as (_ & Hm & Hin & Hap).
  split.
  - eapply Forall_impl; [exact Hin|]. cbn. intros l (? & (? & ? & ?) & ?).
    repeat split; (done || lia).
  - unfold pairwise_apart. apply ForallOrdPairs_lookup; [|done].
    apply Leaf_apart_sym.
Qed.

Lemma construct_all_app (ds1 ds2 : list decl) (b b' : StatsBuilder.t) (ls : list Leaf) :
  construct_all (ds1 ++ ds2) b = Ok (ls, b') ->
  exists ls1 b1 ls2,
    construct_all ds1 b = Ok (ls1, b1) /\
    construct_all ds2 b1 = Ok (ls2, b') /\ ls = ls1 ++ ls2.
Proof.
  revert b ls. induction ds1 as [|d ds1 IH]; intros b ls Hrun.
  - exists [], b, ls. by repeat split.
  - cbn [construct_all app] in *.
    destruct (construct d b) as [[l b0]| |]; cbn in *; try done.
    destruct (construct_all (ds1 ++ ds2) b0) as [[ls' bx]| |] eqn:Hrest;
      cbn in Hrun; try done.
    simplify_eq.
    destruct (IH _ _ Hrest) as (ls1 & b1 & ls2 & -> & H2 & ->).
    exists (l :: ls1), b1, ls2. by repeat split.
Qed.

(** C6 fails on the code.  [StatArray<W64, 536870911>] asks for
    [8 * 536870911 = 2^32 - 8] bytes; the product reaches the [int]
    parameter of [get_offset] as [-8].  Declared between two scalars against
    a fresh builder, it moves the cursor from 8 back to 0, the assertion
    [stat_offset < STATS_SIZE] passes, and the second scalar is handed the
    offset of the first: the byte ranges of two distinct descriptors
    coincide, the cursor has decreased, and the array's own range ends far
    beyond the arena. *)
Theorem C6_oversized_array_rewinds_cursor :
  let root := StatsBuilder.rootNode StatsBuilder_ctor in
  let ds := [DeclObj "a" 8 root; DeclArr "big" 8 536870911 root;
             DeclObj "b" 8 root] in
  let A := LeafObj (StatObj.mk (StatObjBase.mk None "a") 8 0 0) in
  let BIG := LeafArr (StatArray.mk (StatObjBase.mk None "big") 8 536870911 8 0) in
  let B := LeafObj (StatObj.mk (StatObjBase.mk None "b") 8 0 0) in
  to_int (wrap64 (8 * 536870911)) = -8 /\
  construct_all (take 1 ds) StatsBuilder_ctor = Ok ([A], StatsBuilder.mk root 8) /\
  construct_all (take 2 ds) StatsBuilder_ctor
    = Ok ([A; BIG], StatsBuilder.mk root 0) /\
  construct_all ds StatsBuilder_ctor = Ok ([A; BIG; B], StatsBuilder.mk root 8) /\
  Forall2 leaf_of_decl ds [A; BIG; B] /\
  Leaf_offset A = Leaf_offset B /\
  ~ Leaf_apart A B /\
  ~ pairwise_apart [A; BIG; B] /\
  STATS_SIZE < Leaf_offset BIG + Leaf_bytes BIG.
Proof.
  intros root ds A BIG B.
  split; [reflexivity|]. split; [reflexivity|]. split; [reflexivity|].
  split; [reflexivity|].
  assert (~ Leaf_apart A B) as Hov.
  { unfold Leaf_apart, Leaf_bytes. cbn. lia. }
  split; [|split; [reflexivity|split; [exact Hov|split]]].
  - constructor; [reflexivity|].
    constructor; [split; reflexivity|].
    constructor; [reflexivity|constructor].
  - intros Hap. apply Hov. by apply (Hap 0%nat 2%nat).
  - unfold STATS_SIZE, Leaf_bytes. cbn. lia.
Qed.

(** ** The store monad *)

Lemma bind_assert_true {A} (c : bool) (k : M A) (h : heap) :
  c = true -> (assert c ;;; k) h = k h.
Proof. by intros ->. Qed.

Lemma bind_assert_false {A} (c : bool) (k : M A) (h : heap) :
  c = false -> (assert c ;;; k) h = AssertFail.
Proof. by intros ->. Qed.

Lemma bind_assert_ptr {A} (p : Z) (k : M A) (h : heap) :
  p <> 0 -> (assert_ptr p ;;; k) h = k h.
Proof.
  intros Hp. apply bind_assert_true. by destruct (Z.eqb_spec p 0).
Qed.

Lemma bind_load {A} (p sz v : Z) (k : Z -> M A) (h : heap) :
  peek h p sz = Some v -> (x <- load p sz ;; k x) h = k v h.
Proof. intros Hp. unfold bind, load. by rewrite Hp. Qed.

Lemma bind_store {A} (p sz v : Z) (k : M A) (h h' : heap) :
  poke h p sz v = Some h' -> (store p sz v ;;; k) h = k h'.
Proof. intros Hp. unfold bind, store. by rewrite Hp. Qed.

Lemma bind_Ok_inv {A B} (m : M A) (k : A -> M B) (h h' : heap) (b : B) :
  (x <- m ;; k x) h = Ok (b, h') ->
  exists a h1, m h = Ok (a, h1) /\ k a h1 = Ok (b, h').
Proof.
  unfold bind. destruct (m h) as [[a h1]| |]; [|done..]. intros Hk. by exists a, h1.
Qed.

Lemma then_ret_inv {A B} (m : M A) (b b' : B) (h h' : heap) :
  (m ;;; ret b) h = Ok (b', h') -> b' = b /\ exists a, m h = Ok (a, h').
Proof.
  intros Hb. apply bind_Ok_inv in Hb as (a & h1 & Hm & Hr).
  unfold ret in Hr. simplify_eq. split; [done|]. by exists a.
Qed.

Lemma load_Ok_inv (p sz v : Z) (h h' : heap) :
  load p sz h = Ok (v, h') -> h' = h /\ peek h p sz = Some v.
Proof. unfold load. destruct (peek h p sz); intros ?; by simplify_eq. Qed.

Lemma assert_Ok_inv (c : bool) (u : unit) (h h' : heap) :
  assert c h = Ok (u, h') -> h' = h /\ c = true.
Proof. unfold assert. destruct c; intros ?; by simplify_eq. Qed.

(** ** The resolved address of a descriptor *)

Lemma StatObj_set_default_var_ptr_spec (d : StatObj.t) :
  StatObj.offset (StatObj_set_default_var_ptr d) = StatObj.offset d /\
  StatObj.sizeofT (StatObj_set_default_var_ptr d) = StatObj.sizeofT d /\
  StatObj.super (StatObj_set_default_var_ptr d) = StatObj.super d /\
  StatObj.default_var (StatObj_set_default_var_ptr d) =
    resolved (StatObjBase.default_stats (StatObj.super d)) (StatObj.offset d).
Proof. done. Qed.

Lemma StatObj_invoke_keeps (op : StatObj_op) (d d' : StatObj.t) (h h' : heap) :
  StatObj_invoke op d h = Ok (d', h') ->
  StatObj.default_var d =
    resolved (StatObjBase.default_stats (StatObj.super d)) (StatObj.offset d) ->
  StatObj.offset d' = StatObj.offset d /\
  StatObj.default_var d' =
    resolved (StatObjBase.default_stats (StatObj.super d')) (StatObj.offset d').
Proof.
  intros Hrun Hinv.
  destruct op; cbn [StatObj_invoke] in Hrun;
    try (apply then_ret_inv in Hrun as [-> _]; by split).
  unfold ret in Hrun. by simplify_eq.
Qed.

Lemma StatObj_run_keeps (ops : list StatObj_op) (d d' : StatObj.t) (h h' : heap) :
  StatObj_run ops d h = Ok (d', h') ->
  StatObj.default_var d =
    resolved (StatObjBase.default_stats (StatObj.super d)) (StatObj.offset d) ->
  StatObj.offset d' = StatObj.offset d /\
  StatObj.default_var d' =
    resolved (StatObjBase.default_stats (StatObj.super d')) (StatObj.offset d').
Proof.
  revert d h. induction ops as [|op ops IH]; intros d h Hrun Hinv.
  - unfold StatObj_run, ret in Hrun. by simplify_eq.
  - cbn [StatObj_run] in Hrun.
    apply bind_Ok_inv in Hrun as (d1 & h1 & Hone & Hrest).
    destruct (StatObj_invoke_keeps _ _ _ _ _ Hone Hinv) as [Ho Hv].
    destruct (IH _ _ Hrest Hv) as [Ho' Hv']. split; [congruence|done].
Qed.

Lemma StatObj_ctor_resolved name sizeofT parent builder d parent' builder' :
  StatObj_ctor name sizeofT parent builder = Ok (d, parent', builder') ->
  StatObj.default_var d =
    resolved (StatObjBase.default_stats (StatObj.super d)) (StatObj.offset d).
Proof.
  unfold StatObj_ctor.
  destruct (StatsBuilder_get_offset _ _) as [[off b1]| |]; intros Hc; by simplify_eq.
Qed.

Lemma StatArray_invoke_keeps (op : StatArray_op) (a a' : StatArray.t) (h h' : heap) :
  StatArray_invoke op a h = Ok (a', h') ->
  StatArray.default_var a =
    resolved (StatObjBase.default_stats (StatArray.super a)) (StatArray.offset a) ->
  StatArray.offset a' = StatArray.offset a /\
  StatArray.default_var a' =
    resolved (StatObjBase.default_stats (StatArray.super a')) (StatArray.offset a').
Proof.
  intros Hrun Hinv.
  destruct op; cbn [StatArray_invoke] in Hrun;
    try (apply then_ret_inv in Hrun as [-> _]; by split).
  unfold ret in Hrun. by simplify_eq.
Qed.

Lemma StatArray_run_keeps (ops : list StatArray_op) (a a' : StatArray.t) (h h' : heap) :
  StatArray_run ops a h = Ok (a', h') ->
  StatArray.default_var a =
    resolved (StatObjBase.default_stats (StatArray.super a)) (StatArray.offset a) ->
  StatArray.offset a' = StatArray.offset a /\
  StatArray.default_var a' =
    resolved (StatObjBase.default_stats (StatArray.super a')) (StatArray.offset a').
Proof.
  revert a h. induction ops as [|op ops IH]; intros a h Hrun Hinv.
  - unfold StatArray_run, ret in Hrun. by simplify_eq.
  - cbn [StatArray_run] in Hrun.
    apply bind_Ok_inv in Hrun as (a1 & h1 & Hone & Hrest).
    destruct (StatArray_invoke_keeps _ _ _ _ _ Hone Hinv) as [Ho Hv].
    destruct (IH _ _ Hrest Hv) as [Ho' Hv']. split; [congruence|done].
Qed.

Lemma StatArray_ctor_resolved name sizeofT size parent builder a parent' builder' :
  StatArray_ctor name sizeofT size parent builder = Ok (a, parent', builder') ->
  StatArray.default_var a =
    resolved (StatObjBase.default_stats (StatArray.super a)) (StatArray.offset a).
Proof.
  unfold StatArray_ctor.
  destruct (StatsBuilder_get_offset _ _) as [[off b1]| |]; intros Hc; by simplify_eq.
Qed.

(** ** Arenas *)

Lemma zero_fill_lookup_in (h : heap) a n i :
  a <= i < a + Z.of_nat n -> zero_fill h a n !! i = Some 0.
Proof.
  revert a; induction n as [|n IH]; intros a Hi; [lia|].
  cbn [zero_fill]. destruct (decide (a = i)) as [->|Hne].
  - apply lookup_insert_eq.
  - rewrite lookup_insert_ne by done. apply IH. lia.
Qed.

Lemma zero_fill_lookup_out (h : heap) a n i :
  ~ (a <= i < a + Z.of_nat n) -> zero_fill h a n !! i = h !! i.
Proof.
  revert a; induction n as [|n IH]; intros a Hi; [done|].
  cbn [zero_fill]. rewrite lookup_insert_ne by lia. apply IH. lia.
Qed.

Lemma get_new_stats_arena_ok (mem : Z) (h : heap) :
  0 < mem -> mem + STATS_SIZE <= 2 ^ 64 ->
  arena_ok (Stats.mk mem) (snd (StatsBuilder_get_new_stats mem h)).
Proof.
  intros Hm Hw. repeat split; [done..|].
  intros i Hi. unfold StatsBuilder_get_new_stats, snd.
  rewrite zero_fill_lookup_in; [by eexists|].
  unfold Stats_base, Stats.mem in Hi. unfold STATS_SIZE in *. lia.
Qed.

Lemma get_new_stats_keeps (mem : Z) (s : Stats.t) (h : heap) :
  arena_ok s h -> arena_ok s (snd (StatsBuilder_get_new_stats mem h)).
Proof.
  intros (Hb & Hw & Hal). repeat split; [done..|].
  intros i Hi. unfold StatsBuilder_get_new_stats, snd.
  destruct (decide (mem <= i < mem + Z.of_nat (Z.to_nat STATS_SIZE))).
  - rewrite zero_fill_lookup_in by done. by eexists.
  - rewrite zero_fill_lookup_out by done. by apply Hal.
Qed.

Lemma arena_X_ok : arena_ok arena_X two_arenas.
Proof.
  apply get_new_stats_keeps, get_new_stats_arena_ok; unfold STATS_SIZE; lia.
Qed.

Lemma arena_Y_ok : arena_ok arena_Y two_arenas.
Proof. apply get_new_stats_arena_ok; unfold STATS_SIZE; lia. Qed.

Lemma arena_X_Y_apart : arenas_apart arena_X arena_Y.
Proof. left. cbn. unfold STATS_SIZE. lia. Qed.

(** A leaf's cell in a live arena: no wrap-around, owned bytes. *)
Lemma slot_in_arena (s : Stats.t) (h : heap) (o n : Z) :
  arena_ok s h -> 0 <= o -> 0 < n -> o + n <= STATS_SIZE ->
  wrap64 (Stats_base s + o) = Stats_base s + o /\
  allocated h (Stats_base s + o) n.
Proof.
  intros (Hb & Hw & Hal) Ho Hn Hfit. split.
  - apply wrap64_small. unfold STATS_SIZE in *. lia.
  - intros i Hi. apply Hal. lia.
Qed.

(** ** Increment and decrement *)

(** One increment or decrement through a set target whose cell is owned:
    the assertion passes, the cell is read and written back. *)
Ltac run_default_write Hv Hh' :=
  cbv zeta;
  rewrite bind_assert_ptr by done;
  rewrite (bind_load _ _ _ _ _ Hv);
  rewrite (bind_store _ _ _ _ _ _ Hh').

Lemma StatObj_inc_dec_step (op : StatObj_op) (d : StatObj.t) (h : heap) :
  is_inc_dec op = true ->
  StatObj.default_var d <> 0 ->
  0 <= StatObj.sizeofT d ->
  allocated h (StatObj.default_var d) (StatObj.sizeofT d) ->
  exists v h',
    StatObj_invoke op d h = Ok (d, h') /\
    poke h (StatObj.default_var d) (StatObj.sizeofT d) v = Some h'.
Proof.
  intros Hop Hq Hsz Hal.
  destruct (peek_allocated _ _ _ Hal) as [v Hv].
  destruct (poke_allocated h _ _ (wrapT (StatObj.sizeofT d) (v + 1)) Hal) as [hi Hhi].
  destruct (poke_allocated h _ _ (wrapT (StatObj.sizeofT d) (v - 1)) Hal) as [hd Hhd].
  pose proof (peek_poke_same _ _ _ _ _ Hsz Hhi) as Hri.
  pose proof (peek_poke_same _ _ _ _ _ Hsz Hhd) as Hrd.
  destruct op; try discriminate Hop; cbn [StatObj_invoke]; unfold bind at 1.
  - exists (wrapT (StatObj.sizeofT d) (v + 1)), hi. split; [|done].
    unfold StatObj_post_inc. by run_default_write Hv Hhi.
  - exists (wrapT (StatObj.sizeofT d) (v + 1)), hi. split; [|done].
    unfold StatObj_pre_inc. run_default_write Hv Hhi. unfold load. by rewrite Hri.
  - exists (wrapT (StatObj.sizeofT d) (v - 1)), hd. split; [|done].
    unfold StatObj_post_dec. by run_default_write Hv Hhd.
  - exists (wrapT (StatObj.sizeofT d) (v - 1)), hd. split; [|done].
    unfold StatObj_pre_dec. run_default_write Hv Hhd. unfold load. by rewrite Hrd.
Qed.

Lemma StatObj_inc_dec_step_value (op : StatObj_op) (d : StatObj.t) (h : heap) (v : Z) :
  is_inc_dec op = true ->
  StatObj.default_var d <> 0 ->
  0 <= StatObj.sizeofT d ->
  peek h (StatObj.default_var d) (StatObj.sizeofT d) = Some v ->
  exists h',
    StatObj_invoke op d h = Ok (d, h') /\
    peek h' (StatObj.default_var d) (StatObj.sizeofT d)
      = Some (wrapT (StatObj.sizeofT d) (v + inc_dec_delta op)) /\
    (forall p, ~ (StatObj.default_var d <= p
                  < StatObj.default_var d + StatObj.sizeofT d) ->
               h' !! p = h !! p).
Proof.
  intros Hop Hq Hsz Hv. pose proof (peek_Some_allocated _ _ _ _ Hv) as Hal.
  destruct (poke_allocated h _ _ (wrapT (StatObj.sizeofT d) (v + 1)) Hal) as [hi Hhi].
  destruct (poke_allocated h _ _ (wrapT (StatObj.sizeofT d) (v - 1)) Hal) as [hd Hhd].
  pose proof (peek_poke_same _ _ _ _ _ Hsz Hhi) as Hri.
  pose proof (peek_poke_same _ _ _ _ _ Hsz Hhd) as Hrd.
  rewrite wrapT_idem in Hri, Hrd.
  destruct op; try discriminate Hop; cbn [StatObj_invoke inc_dec_delta];
    unfold bind at 1.
  - exists hi. split; [|split; [done|intros p Hp; by apply (poke_outside _ _ _ _ _ _ Hhi)]].
    unfold StatObj_post_inc. by run_default_write Hv Hhi.
  - exists hi. split; [|split; [done|intros p Hp; by apply (poke_outside _ _ _ _ _ _ Hhi)]].
    unfold StatObj_pre_inc. run_default_write Hv Hhi. unfold load. by rewrite Hri.
  - exists hd. split; [|split; [done|intros p Hp; by apply (poke_outside _ _ _ _ _ _ Hhd)]].
    unfold StatObj_post_dec. by run_default_write Hv Hhd.
  - exists hd. split; [|split; [done|intros p Hp; by apply (poke_outside _ _ _ _ _ _ Hhd)]].
    unfold StatObj_pre_dec. run_default_write Hv Hhd. unfold load. by rewrite Hrd.
Qed.

Lemma StatObj_inc_dec_run (ops : list StatObj_op) (d : StatObj.t) (h : heap) :
  forallb is_inc_dec ops = true ->
  StatObj.default_var d <> 0 ->
  0 <= StatObj.sizeofT d ->
  allocated h (StatObj.default_var d) (StatObj.sizeofT d) ->
  exists h',
    StatObj_run ops d h = Ok (d, h') /\
    (forall i, ~ (StatObj.default_var d <= i
                  < StatObj.default_var d + StatObj.sizeofT d) ->
               h' !! i = h !! i).
Proof.
  intros Hops Hq Hsz. revert h.
  induction ops as [|op ops IH]; intros h Hal.
  - exists h. by split.
  - cbn [forallb] in Hops. apply andb_prop in Hops as [Hop Hops].
    destruct (StatObj_inc_dec_step op d h Hop Hq Hsz Hal) as (v & h1 & Hone & Hp).
    destruct (IH Hops h1) as (h' & Hrun & Hout).
    { eapply poke_keeps_allocated; eauto. }
    exists h'. split.
    + cbn [StatObj_run]. unfold bind. by rewrite Hone.
    + intros i Hi. rewrite (Hout i Hi). by apply (poke_outside _ _ _ _ _ _ Hp).
Qed.

Lemma StatObj_value_peek (d : StatObj.t) (s : Stats.t) (h : heap) (x : Z) :
  peek h (wrap64 (Stats_base s + StatObj.offset d)) (StatObj.sizeofT d) = Some x ->
  StatObj_value d (Some s) h = Ok (x, h).
Proof.
  intros Hx. unfold StatObj_value, StatObj_call, bind, ret, load. by rewrite Hx.
Qed.

(** C8: a scalar descriptor inside the arena, two live arenas X and Y that
    are different blocks.  With X as target, switch the target to Y and run
    any number of increments and decrements: the run goes through, the
    target is Y, and the descriptor's value in X is what it was. *)
Theorem C8_target_isolation
    (d : StatObj.t) (X Y : Stats.t) (ops : list StatObj_op) (h : heap) :
  arena_ok X h -> arena_ok Y h -> arenas_apart X Y ->
  Leaf_fits (LeafObj d) ->
  forallb is_inc_dec ops = true ->
  exists d' h' x,
    StatObj_run (OpSetDefaultStats (Some X) :: OpSetDefaultStats (Some Y) :: ops) d h
      = Ok (d', h') /\
    StatObjBase.default_stats (StatObj.super d') = Some Y /\
    StatObj.offset d' = StatObj.offset d /\
    StatObj_value d (Some X) h = Ok (x, h) /\
    StatObj_value d' (Some X) h' = Ok (x, h').
Proof.
  intros HX HY Hap (Hsz & _ & Ho & Hfit) Hops.
  unfold Leaf_bytes in Hfit. cbn in Hsz, Ho, Hfit.
  destruct (slot_in_arena X h (StatObj.offset d) (StatObj.sizeofT d) HX)
    as [HpX HalX]; [lia..|].
  destruct (slot_in_arena Y h (StatObj.offset d) (StatObj.sizeofT d) HY)
    as [HpY HalY]; [lia..|].
  set (dY := StatObj_set_default_stats (Some Y) (StatObj_set_default_stats (Some X) d)).
  assert (StatObj.default_var dY = Stats_base Y + StatObj.offset d) as Hq
    by (cbn; exact HpY).
  destruct (StatObj_inc_dec_run ops dY h Hops) as (h' & Hrun & Hout).
  { rewrite Hq. destruct HY. lia. }
  { cbn. lia. }
  { rewrite Hq. exact HalY. }
  destruct (peek_allocated _ _ _ HalX) as [x Hx].
  exists dY, h', x. repeat split; try done.
  - apply StatObj_value_peek. by rewrite HpX.
  - apply StatObj_value_peek. cbn [dY StatObj.offset StatObj.sizeofT
      StatObj_set_default_stats StatObj_set_default_var_ptr].
    rewrite HpX, <- Hx. apply peek_ext. intros i Hi. apply Hout.
    rewrite Hq. cbn. unfold arenas_apart in Hap. lia.
Qed.

(** C8 on the scalar of the example and two fresh arenas. *)
Lemma C8_target_isolation_witness :
  let d := StatObj.mk (StatObjBase.mk None "hits") 8 0 0 in
  exists d' h' x,
    StatObj_run [OpSetDefaultStats (Some arena_X); OpSetDefaultStats (Some arena_Y);
                 OpPostInc; OpPreInc; OpPreDec] d two_arenas = Ok (d', h') /\
    StatObjBase.default_stats (StatObj.super d') = Some arena_Y /\
    StatObj.offset d' = StatObj.offset d /\
    StatObj_value d (Some arena_X) two_arenas = Ok (x, two_arenas) /\
    StatObj_value d' (Some arena_X) h' = Ok (x, h').
Proof.
  intros d.
  apply (C8_target_isolation d arena_X arena_Y [OpPostInc; OpPreInc; OpPreDec] two_arenas).
  - exact arena_X_ok.
  - exact arena_Y_ok.
  - exact arena_X_Y_apart.
  - unfold Leaf_fits, Leaf_bytes, STATS_SIZE. cbn. lia.
  - reflexivity.
Defined.

(** ** The binary operators *)

Lemma eval_binop_Ok_inv (op : binop) (sz x y v : Z) (h h' : heap) :
  eval_binop op sz x y h = Ok (v, h') ->
  h' = h /\ v = binop_value op sz x y /\ binop_defined op y = true.
Proof.
  unfold eval_binop. destruct (binop_defined op y); [|done].
  unfold ret. intros ?; by simplify_eq.
Qed.

Lemma StatObj_binop_Ok_inv (op : binop) (d : StatObj.t) (b v : Z) (h h' : heap) :
  StatObj_binop op d b h = Ok (v, h') ->
  h' = h /\
  exists x, peek h (StatObj.default_var d) (StatObj.sizeofT d) = Some x /\
            v = binop_value op (StatObj.sizeofT d) x b.
Proof.
  unfold StatObj_binop, assert_ptr. intros Hrun.
  apply bind_Ok_inv in Hrun as (u1 & h1 & [-> _]%assert_Ok_inv & Hrun).
  apply bind_Ok_inv in Hrun as (x & h2 & [-> Hx]%load_Ok_inv & Hrun).
  apply eval_binop_Ok_inv in Hrun as (-> & -> & _). split; [done|]. by exists x.
Qed.

Lemma StatObj_binop_obj_Ok_inv (op : binop) (d statObj : StatObj.t) (v : Z)
    (h h' : heap) :
  StatObj_binop_obj op d statObj h = Ok (v, h') ->
  h' = h /\
  exists x y, peek h (StatObj.default_var d) (StatObj.sizeofT d) = Some x /\
              peek h (StatObj.default_var statObj) (StatObj.sizeofT d) = Some y /\
              v = binop_value op (StatObj.sizeofT d) x y.
Proof.
  unfold StatObj_binop_obj, assert_ptr. intros Hrun.
  apply bind_Ok_inv in Hrun as (u1 & h1 & [-> _]%assert_Ok_inv & Hrun).
  apply bind_Ok_inv in Hrun as (u2 & h2 & [-> _]%assert_Ok_inv & Hrun).
  apply bind_Ok_inv in Hrun as (x & h3 & [-> Hx]%load_Ok_inv & Hrun).
  apply bind_Ok_inv in Hrun as (y & h4 & [-> Hy]%load_Ok_inv & Hrun).
  apply eval_binop_Ok_inv in Hrun as (-> & -> & _). split; [done|]. by exists x, y.
Qed.

(** C10: [+], [-], [*], [/] of a scalar descriptor with a literal or with
    another descriptor.  Whenever the operator returns, the store is the one
    it started from, the descriptor is unchanged, and the value returned is
    the operator applied to the stored values; it returns whenever the
    targets are set, the cells are owned and the divisor of [/] is not
    zero. *)
Theorem C10_binops_pure (op : binop) (d statObj : StatObj.t) (b : Z) (h : heap) :
  (forall v h', StatObj_binop op d b h = Ok (v, h') ->
     h' = h /\
     exists x, peek h (StatObj.default_var d) (StatObj.sizeofT d) = Some x /\
               v = binop_value op (StatObj.sizeofT d) x b) /\
  (forall v h', StatObj_binop_obj op d statObj h = Ok (v, h') ->
     h' = h /\
     exists x y,
       peek h (StatObj.default_var d) (StatObj.sizeofT d) = Some x /\
       peek h (StatObj.default_var statObj) (StatObj.sizeofT d) = Some y /\
       v = binop_value op (StatObj.sizeofT d) x y) /\
  (forall d' h', StatObj_invoke (OpBin op b) d h = Ok (d', h') -> d' = d /\ h' = h) /\
  (forall d' h', StatObj_invoke (OpBinObj op statObj) d h = Ok (d', h') ->
     d' = d /\ h' = h) /\
  (forall x, StatObj.default_var d <> 0 ->
     peek h (StatObj.default_var d) (StatObj.sizeofT d) = Some x ->
     binop_defined op b = true ->
     StatObj_binop op d b h = Ok (binop_value op (StatObj.sizeofT d) x b, h)) /\
  (forall x y, StatObj.default_var d <> 0 -> StatObj.default_var statObj <> 0 ->
     peek h (StatObj.default_var d) (StatObj.sizeofT d) = Some x ->
     peek h (StatObj.default_var statObj) (StatObj.sizeofT d) = Some y ->
     binop_defined op y = true ->
     StatObj_binop_obj op d statObj h =
       Ok (binop_value op (StatObj.sizeofT d) x y, h)).
Proof.
  repeat apply conj.
  - intros v h' Hrun. by apply StatObj_binop_Ok_inv in Hrun.
  - intros v h' Hrun. by apply StatObj_binop_obj_Ok_inv in Hrun.
  - intros d' h' Hrun. apply then_ret_inv in Hrun as [-> [v Hv]].
    by apply StatObj_binop_Ok_inv in Hv as [-> _].
  - intros d' h' Hrun. apply then_ret_inv in Hrun as [-> [v Hv]].
    by apply StatObj_binop_obj_Ok_inv in Hv as [-> _].
  - intros x Hq Hx Hdef. unfold StatObj_binop.
    rewrite bind_assert_ptr by done. rewrite (bind_load _ _ _ _ _ Hx).
    unfold eval_binop. by rewrite Hdef.
  - intros x y Hq Hq' Hx Hy Hdef. unfold StatObj_binop_obj.
    rewrite !bind_assert_ptr by done.
    rewrite (bind_load _ _ _ _ _ Hx), (bind_load _ _ _ _ _ Hy).
    unfold eval_binop. by rewrite Hdef.
Qed.

(** C10 on two scalars sharing an arena. *)
Lemma C10_binops_pure_witness :
  let a := StatObj.mk (StatObjBase.mk (Some arena_X) "hits") 8 0 65536 in
  let b := StatObj.mk (StatObjBase.mk (Some arena_X) "misses") 8 8 65544 in
  (two_slots = two_slots /\
   exists x, peek two_slots (StatObj.default_var a) (StatObj.sizeofT a) = Some x /\
             0 = binop_value Times (StatObj.sizeofT a) x 7) /\
  (two_slots = two_slots /\
   exists x y,
     peek two_slots (StatObj.default_var a) (StatObj.sizeofT a) = Some x /\
     peek two_slots (StatObj.default_var b) (StatObj.sizeofT a) = Some y /\
     0 = binop_value Minus (StatObj.sizeofT a) x y) /\
  (a = a /\ two_slots = two_slots) /\
  (a = a /\ two_slots = two_slots) /\
  StatObj_binop Divide a 7 two_slots = Ok (0, two_slots) /\
  StatObj_binop_obj Plus a b two_slots = Ok (0, two_slots).
Proof.
  intros a b. split; [|split; [|split; [|split; [|split]]]].
  - apply (proj1 (C10_binops_pure Times a b 7 two_slots) 0 two_slots). reflexivity.
  - apply (proj1 (proj2 (C10_binops_pure Minus a b 7 two_slots)) 0 two_slots).
    reflexivity.
  - apply (proj1 (proj2 (proj2 (C10_binops_pure Plus a b 7 two_slots))) a two_slots).
    reflexivity.
  - apply (proj1 (proj2 (proj2 (proj2 (C10_binops_pure Plus a b 7 two_slots))))
             a two_slots).
    reflexivity.
  - apply (proj1 (proj2 (proj2 (proj2 (proj2
             (C10_binops_pure Divide a b 7 two_slots))))) 0);
      [discriminate | reflexivity | reflexivity].
  - apply (proj2 (proj2 (proj2 (proj2 (proj2
             (C10_binops_pure Plus a b 7 two_slots))))) 0 0);
      [discriminate | discriminate | reflexivity | reflexivity | reflexivity].
Defined.

(** ** Dumps *)

Lemma append_assoc (a b c : string) : ((a ++ b) ++ c = a ++ (b ++ c))%string.
Proof.
  induction a as [|x a IH]; [done|].
  change (String x ((a ++ b) ++ c) = String x (a ++ (b ++ c)))%string.
  by rewrite IH.
Qed.

Lemma append_empty_r (a : string) : (a ++ "")%string = a.
Proof.
  induction a as [|x a IH]; [done|].
  change (String x (a ++ "") = String x a)%string. by rewrite IH.
Qed.

Lemma foreach_from_load {S} (f : S -> Z -> S) (h : heap) (arr sz i : Z) (n : nat)
    (vs : list Z) (s : S) :
  peek_elems h arr sz i n = Some vs ->
  foreach_from i n
    (fun k s => v <- load (BaseArr_at arr sz k) sz ;; ret (f s v)) s h
  = Ok (fold_left f vs s, h).
Proof.
  revert i vs s. induction n as [|n IH]; intros i vs s Hvs.
  - cbn in Hvs. by simplify_eq.
  - cbn [peek_elems] in Hvs.
    destruct (peek h (BaseArr_at arr sz i) sz) as [v|] eqn:Hv; [|done].
    destruct (peek_elems h arr sz (i + 1) n) as [vs'|] eqn:Hvs'; [|done].
    simplify_eq. cbn [foreach_from fold_left].
    unfold bind at 1. rewrite (bind_load _ _ _ _ _ Hv). unfold ret at 1.
    by apply IH.
Qed.

Lemma fold_spaced (vs : list Z) (os : string) :
  fold_left (fun os v => (os ++ show v ++ " ")%string) vs os
  = (os ++ spaced vs)%string.
Proof.
  revert os. induction vs as [|v vs IH]; intros os; cbn [fold_left spaced].
  - by rewrite append_empty_r.
  - rewrite IH. by rewrite !append_assoc.
Qed.

Lemma fold_emit (vs : list Z) (out : Emitter) :
  fold_left emit_W64 vs out = out ++ map (fun v => YScalar (show v)) vs.
Proof.
  revert out. induction vs as [|v vs IH]; intros out; cbn [fold_left map].
  - by rewrite app_nil_r.
  - rewrite IH. unfold emit_W64. by rewrite <- app_assoc.
Qed.

(** The YAML dump of an array emits the elements that [operator()] reaches,
    in index order, between the sequence marks. *)
Lemma StatArray_dump_yaml_elems (a : StatArray.t) (out : Emitter) (s : Stats.t)
    (h : heap) (vs : list Z) :
  peek_elems h (wrap64 (Stats_base s + StatArray.offset a)) (StatArray.sizeofT a)
             0 (Z.to_nat (StatArray.size a)) = Some vs ->
  StatArray_dump_yaml a out (Some s) h =
    Ok (out ++ yaml_seq (StatObjBase.name (StatArray.super a)) vs, h).
Proof.
  intros Hvs. unfold StatArray_dump_yaml, StatArray_call, foreach. cbv zeta.
  unfold bind at 1. unfold ret at 1. unfold bind at 1.
  rewrite (foreach_from_load emit_W64 _ _ _ _ _ _ _ Hvs).
  unfold ret, yaml_seq. rewrite fold_emit. by rewrite <- !app_assoc.
Qed.

(** A text or YAML dump does not look at the default target, the assertion
    of the scalar YAML dump apart. *)
Lemma dumps_ignore_default_target (stats' : StatsPtr) :
  (forall d os stats h,
     StatObj_dump (StatObj_set_default_stats stats' d) os stats h
     = StatObj_dump d os stats h) /\
  (forall a os stats h,
     StatArray_dump (StatArray_set_default_stats stats' a) os stats h
     = StatArray_dump a os stats h) /\
  (forall a out stats h,
     StatArray_dump_yaml (StatArray_set_default_stats stats' a) out stats h
     = StatArray_dump_yaml a out stats h) /\
  (forall d d' out stats h,
     StatObj.offset d' = StatObj.offset d ->
     StatObj.sizeofT d' = StatObj.sizeofT d ->
     StatObj.super d' = StatObj.super d ->
     StatObj.default_var d <> 0 -> StatObj.default_var d' <> 0 ->
     StatObj_dump_yaml d' out stats h = StatObj_dump_yaml d out stats h).
Proof.
  repeat apply conj; try done.
  intros d d' out stats h Ho Hs Hn Hv Hv'. unfold StatObj_dump_yaml.
  rewrite !bind_assert_ptr by done. unfold StatObj_call. by rewrite Ho, Hs, Hn.
Qed.

(** A scalar dump reads nothing but the descriptor's cell in the arena it
    is given. *)
Lemma StatObj_dump_reads_cell (d : StatObj.t) (os : ostream) (s : Stats.t)
    (h1 h2 : heap) :
  (forall p, wrap64 (Stats_base s + StatObj.offset d) <= p
             < wrap64 (Stats_base s + StatObj.offset d) + StatObj.sizeofT d ->
             h1 !! p = h2 !! p) ->
  outcome (StatObj_dump d os (Some s) h1) = outcome (StatObj_dump d os (Some s) h2).
Proof.
  intros Hag. unfold StatObj_dump, StatObj_call, bind, ret, load.
  rewrite (peek_ext h1 h2 _ _ Hag). by destruct (peek h2 _ _).
Qed.

Lemma StatObj_dump_yaml_no_target (d : StatObj.t) (out : Emitter)
    (stats : StatsPtr) (h : heap) :
  StatObj.default_var d = 0 -> StatObj_dump_yaml d out stats h = AssertFail.
Proof. intros Hv. unfold StatObj_dump_yaml, assert_ptr. by rewrite Hv. Qed.

(** C3, where the code departs from it: a scalar constructed under a node
    that has no default arena has [default_var = NULL]; its text dump against
    a live, zeroed arena writes the value, and its YAML dump against the same
    arena stops at [assert(default_var)]. *)
Theorem C3_yaml_dump_asserts_default_target :
  match StatObj_ctor "hits" 8 (StatsBuilder.rootNode StatsBuilder_ctor)
                     StatsBuilder_ctor with
  | Ok (d, _, _) =>
      StatObj.default_var d = 0 /\
      outcome (StatObj_dump d "" (Some arena_X) one_arena)
        = Ok ("hits:0" ++ newline)%string /\
      outcome (StatObj_dump_yaml d [] (Some arena_X) one_arena) = AssertFail
  | _ => False
  end.
Proof. vm_compute. by repeat split. Qed.

(** ** Array indexing *)

Lemma StatArray_index_above (a : StatArray.t) (index : Z) (h : heap) :
  StatArray.size a <= index -> StatArray_index a index h = AssertFail.
Proof.
  intros Hi. unfold StatArray_index. cbv zeta. apply bind_assert_false.
  destruct (Z.ltb_spec index (StatArray.size a)); [lia|done].
Qed.

Lemma StatArray_index_below (a : StatArray.t) (index : Z) (h : heap) :
  index < StatArray.size a -> StatArray.default_var a <> 0 ->
  StatArray_index a index h =
    Ok (wrap64 (StatArray.default_var a
                + wrap64 (index * StatArray.sizeofT a) * StatArray.sizeofT a), h).
Proof.
  intros Hi Hv. unfold StatArray_index. cbv zeta.
  rewrite bind_assert_true by (destruct (Z.ltb_spec index (StatArray.size a)); [done|lia]).
  by rewrite bind_assert_ptr.
Qed.

(** Where [operator[]] points for an index that is not negative: [index]
    strides of [sizeof(T) * sizeof(T)] bytes from the start of the array;
    [operator()] and the dumps reach element [index] at
    [index * sizeof(T)] bytes ([BaseArr_at]). *)
Lemma StatArray_index_stride (a : StatArray.t) (index : Z) (h : heap) :
  0 <= index < StatArray.size a -> 0 < StatArray.sizeofT a ->
  StatArray.default_var a <> 0 ->
  0 <= StatArray.default_var a ->
  StatArray.default_var a + index * StatArray.sizeofT a * StatArray.sizeofT a < 2 ^ 64 ->
  StatArray_index a index h =
    Ok (StatArray.default_var a
        + index * StatArray.sizeofT a * StatArray.sizeofT a, h).
Proof.
  intros Hi Hsz Hv Hv0 Hfit. rewrite StatArray_index_below by (done || lia).
  assert (0 <= index * StatArray.sizeofT a) by nia.
  assert (index * StatArray.sizeofT a
          <= index * StatArray.sizeofT a * StatArray.sizeofT a) by nia.
  rewrite (wrap64_small (index * StatArray.sizeofT a)) by nia.
  rewrite wrap64_small by nia. done.
Qed.

(** C9, where the code departs from it: on an array of four W64 at offset 8
    whose target is a live arena, index -1 is outside [0, 4) and
    [operator[]] returns a reference, 64 bytes below the array. *)
Theorem C9_negative_index_not_rejected :
  let a := StatArray_set_default_stats (Some arena_X)
             (StatArray.mk (StatObjBase.mk None "latency_hist") 8 4 8 0) in
  forall h, StatArray_index a (-1) h = Ok (65536 + 8 - 64, h).
Proof. intros a h. by rewrite StatArray_index_below. Qed.

(** C1, where the code departs from it: an array of two W64 constructed
    under a node whose default arena is a fresh, zeroed arena.  Writing [i]
    at index [i] through [operator[]] and dumping the array as YAML against
    that arena gives the sequence 0, 0 and not 0, 1: [operator[]] puts
    element 1 at byte 64 of the array, the dump reads it at byte 8. *)
Theorem C1_index_write_then_dump :
  match StatArray_ctor "latency_hist" 8 2
          (Statable.mk [] [] "cache" (Some arena_X)) StatsBuilder_ctor with
  | Ok (a, _, _) =>
      outcome (StatArray_index a 1 one_arena) = Ok (65536 + 64) /\
      outcome (StatArray_call a (Some arena_X) one_arena) = Ok 65536 /\
      outcome ((StatArray_fill_indices a ;;;
                StatArray_dump_yaml a [] (Some arena_X)) one_arena)
        = Ok (yaml_seq "latency_hist" [0; 0]) /\
      yaml_seq "latency_hist" [0; 0] <> yaml_seq "latency_hist" [0; 1]
  | _ => False
  end.
Proof. vm_compute. repeat split; (done || discriminate). Qed.

(** ** The arena and the address of an access *)

Lemma StatObj_ctor_fields name sizeofT parent builder d parent' builder' :
  StatObj_ctor name sizeofT parent builder = Ok (d, parent', builder') ->
  StatObj.offset d = StatsBuilder.stat_offset builder /\
  StatObj.sizeofT d = sizeofT /\
  StatObjBase.default_stats (StatObj.super d) = Statable_get_default_stats parent.
Proof.
  unfold StatObj_ctor, StatsBuilder_get_offset.
  destruct (_ <? STATS_SIZE); intros Hc; by simplify_eq.
Qed.

Lemma StatObj_run_chosen (ops : list StatObj_op) (d d' : StatObj.t) (h h' : heap) :
  StatObj_run ops d h = Ok (d', h') ->
  StatObj.sizeofT d' = StatObj.sizeofT d /\
  StatObjBase.default_stats (StatObj.super d')
    = StatObj_chosen ops (StatObjBase.default_stats (StatObj.super d)).
Proof.
  revert d h. induction ops as [|op ops IH]; intros d h Hrun.
  - unfold StatObj_run, ret in Hrun. by simplify_eq.
  - cbn [StatObj_run] in Hrun.
    apply bind_Ok_inv in Hrun as (d1 & h1 & Hone & Hrest).
    destruct (IH _ _ Hrest) as [Hsz Hst]. rewrite Hsz, Hst. clear IH Hrest Hsz Hst.
    destruct op; cbn [StatObj_invoke StatObj_chosen] in Hone |- *;
      try (apply then_ret_inv in Hone as [-> _]; by split).
    unfold ret in Hone. by simplify_eq.
Qed.

Lemma StatArray_ctor_fields name sizeofT size parent builder a parent' builder' :
  StatArray_ctor name sizeofT size parent builder = Ok (a, parent', builder') ->
  StatArray.offset a = StatsBuilder.stat_offset builder /\
  StatArray.sizeofT a = sizeofT /\ StatArray.size a = size /\
  StatObjBase.default_stats (StatArray.super a) = Statable_get_default_stats parent.
Proof.
  unfold StatArray_ctor, StatsBuilder_get_offset.
  destruct (_ <? STATS_SIZE); intros Hc; by simplify_eq.
Qed.

Lemma StatArray_run_chosen (ops : list StatArray_op) (a a' : StatArray.t) (h h' : heap) :
  StatArray_run ops a h = Ok (a', h') ->
  StatArray.sizeofT a' = StatArray.sizeofT a /\
  StatArray.size a' = StatArray.size a /\
  StatObjBase.default_stats (StatArray.super a')
    = StatArray_chosen ops (StatObjBase.default_stats (StatArray.super a)).
Proof.
  revert a h. induction ops as [|op ops IH]; intros a h Hrun.
  - unfold StatArray_run, ret in Hrun. by simplify_eq.
  - cbn [StatArray_run] in Hrun.
    apply bind_Ok_inv in Hrun as (a1 & h1 & Hone & Hrest).
    destruct (IH _ _ Hrest) as (Hsz & Hn & Hst). rewrite Hsz, Hn, Hst.
    clear IH Hrest Hsz Hn Hst.
    destruct op; cbn [StatArray_invoke StatArray_chosen] in Hone |- *;
      try (apply then_ret_inv in Hone as [-> _]; by repeat split).
    unfold ret in Hone. by simplify_eq.
Qed.

Lemma StatObj_binop_value (op : binop) (d : StatObj.t) (b v : Z) (h : heap) :
  StatObj.default_var d <> 0 ->
  peek h (StatObj.default_var d) (StatObj.sizeofT d) = Some v ->
  binop_defined op b = true ->
  StatObj_binop op d b h = Ok (binop_value op (StatObj.sizeofT d) v b, h).
Proof.
  intros Hq Hv Hdef. unfold StatObj_binop.
  rewrite bind_assert_ptr by done. rewrite (bind_load _ _ _ _ _ Hv).
  unfold eval_binop. by rewrite Hdef.
Qed.

(** C7.  A descriptor is constructed and then takes any sequence of calls,
    with any number of [set_default_stats] among them.  Its offset is still
    the one [get_offset] handed to the constructor, and its default arena is
    the one of the last [set_default_stats] (the parent's, when there was
    none).  Default-target arithmetic goes to that arena's base plus the
    offset and nowhere else: with [v] in the cell at that address, [++] and
    [--] leave [v + 1] and [v - 1] there and change no byte outside the
    cell, and the binary operators compute from [v] and leave the store
    alone.  [operator()] on an arena returns that arena's base plus the
    offset, and what is read through it is the content of that cell.  For
    an array, [operator[]] starts at the chosen arena's base plus the
    offset, and [operator()] at the given arena's base plus the offset. *)
Theorem C7_resolved_address :
  (forall name sizeofT parent builder d parent' builder' ops h d' h',
     0 < sizeofT ->
     StatObj_ctor name sizeofT parent builder = Ok (d, parent', builder') ->
     StatObj_run ops d h = Ok (d', h') ->
     StatObj.offset d = StatsBuilder.stat_offset builder /\
     StatObj.offset d' = StatObj.offset d /\
     StatObjBase.default_stats (StatObj.super d')
       = StatObj_chosen ops (Statable_get_default_stats parent) /\
     (forall s h1 v,
        StatObj_chosen ops (Statable_get_default_stats parent) = Some s ->
        wrap64 (Stats_base s + StatsBuilder.stat_offset builder) <> 0 ->
        peek h1 (wrap64 (Stats_base s + StatsBuilder.stat_offset builder)) sizeofT
          = Some v ->
        (forall op, is_inc_dec op = true ->
           exists h2,
             StatObj_invoke op d' h1 = Ok (d', h2) /\
             peek h2 (wrap64 (Stats_base s + StatsBuilder.stat_offset builder)) sizeofT
               = Some (wrapT sizeofT (v + inc_dec_delta op)) /\
             (forall q,
                ~ (wrap64 (Stats_base s + StatsBuilder.stat_offset builder) <= q
                   < wrap64 (Stats_base s + StatsBuilder.stat_offset builder)
                     + sizeofT) ->
                h2 !! q = h1 !! q)) /\
        (forall op b, binop_defined op b = true ->
           StatObj_binop op d' b h1 = Ok (binop_value op sizeofT v b, h1))) /\
     (forall s h1,
        StatObj_call d' (Some s) h1
          = Ok (wrap64 (Stats_base s + StatsBuilder.stat_offset builder), h1)) /\
     (forall s h1 w,
        peek h1 (wrap64 (Stats_base s + StatsBuilder.stat_offset builder)) sizeofT
          = Some w ->
        StatObj_value d' (Some s) h1 = Ok (w, h1))) /\
  (forall name sizeofT size parent builder a parent' builder' ops h a' h',
     StatArray_ctor name sizeofT size parent builder = Ok (a, parent', builder') ->
     StatArray_run ops a h = Ok (a', h') ->
     StatArray.offset a = StatsBuilder.stat_offset builder /\
     StatArray.offset a' = StatArray.offset a /\
     StatObjBase.default_stats (StatArray.super a')
       = StatArray_chosen ops (Statable_get_default_stats parent) /\
     (forall s h1,
        StatArray_chosen ops (Statable_get_default_stats parent) = Some s ->
        wrap64 (Stats_base s + StatsBuilder.stat_offset builder) <> 0 ->
        0 < size ->
        StatArray_index a' 0 h1
          = Ok (wrap64 (Stats_base s + StatsBuilder.stat_offset builder), h1)) /\
     (forall s h1,
        StatArray_call a' (Some s) h1
          = Ok (wrap64 (Stats_base s + StatsBuilder.stat_offset builder), h1)) /\
     (forall s i h1 w,
        peek h1 (wrap64 (Stats_base s + StatsBuilder.stat_offset builder)
                 + i * sizeofT) sizeofT = Some w ->
        StatArray_value a' (Some s) i h1 = Ok (w, h1))).
Proof.
  split.
  - intros name sizeofT parent builder d parent' builder' ops h d' h' Hpos Hc Hrun.
    destruct (StatObj_ctor_fields _ _ _ _ _ _ _ Hc) as (Hoff & Hsz & Hst).
    destruct (StatObj_run_keeps _ _ _ _ _ Hrun (StatObj_ctor_resolved _ _ _ _ _ _ _ Hc))
      as [Ho Hv].
    destruct (StatObj_run_chosen _ _ _ _ _ Hrun) as [Hsz' Hst'].
    rewrite Hsz in Hsz'. rewrite Hst in Hst'. rewrite Hst', Ho, Hoff in Hv.
    split; [done|]. split; [done|]. split; [done|]. split; [|split].
    + intros s h1 v Hs Hq Hpeek. rewrite Hs in Hv. cbn [resolved] in Hv.
      rewrite <- Hv in Hq, Hpeek |- *. rewrite <- Hsz' in Hpeek |- *. split.
      * intros op Hop. apply StatObj_inc_dec_step_value; [done..|lia|done].
      * intros op b Hdef. by apply StatObj_binop_value.
    + intros s h1. unfold StatObj_call, ret. by rewrite Ho, Hoff.
    + intros s h1 w Hw. apply StatObj_value_peek. by rewrite Ho, Hoff, Hsz'.
  - intros name sizeofT size parent builder a parent' builder' ops h a' h' Hc Hrun.
    destruct (StatArray_ctor_fields _ _ _ _ _ _ _ _ Hc) as (Hoff & Hsz & Hn & Hst).
    destruct (StatArray_run_keeps _ _ _ _ _ Hrun
                (StatArray_ctor_resolved _ _ _ _ _ _ _ _ Hc)) as [Ho Hv].
    destruct (StatArray_run_chosen _ _ _ _ _ Hrun) as (Hsz' & Hn' & Hst').
    rewrite Hsz in Hsz'. rewrite Hn in Hn'. rewrite Hst in Hst'.
    rewrite Hst', Ho, Hoff in Hv.
    split; [done|]. split; [done|]. split; [done|]. split; [|split].
    + intros s h1 Hs Hq Hsize. rewrite Hs in Hv. cbn [resolved] in Hv.
      rewrite StatArray_index_below by (rewrite ?Hn', ?Hv; done).
      rewrite Hv. f_equal. f_equal.
      replace (wrap64 (0 * StatArray.sizeofT a') * StatArray.sizeofT a') with 0
        by reflexivity.
      rewrite Z.add_0_r. unfold wrap64. by rewrite Z.mod_mod by lia.
    + intros s h1. unfold StatArray_call, ret. by rewrite Ho, Hoff.
    + intros s i h1 w Hw.
      unfold StatArray_value, StatArray_call, BaseArr_at, bind, ret, load.
      by rewrite Ho, Hoff, Hsz', Hw.
Qed.

(** C7 on the scalar of the example, retargeted to the first arena,
    incremented, retargeted to the second arena and incremented again, and
    on the array of the example, retargeted once. *)
Lemma C7_resolved_address_witness :
  let d' := StatObj.mk (StatObjBase.mk (Some arena_Y) "hits") 8 0 131072 in
  let a' := StatArray.mk (StatObjBase.mk (Some arena_X) "latency_hist") 8 4 8 65544 in
  (StatObj.offset d' = 0 /\
   StatObjBase.default_stats (StatObj.super d') = Some arena_Y /\
   (exists h2,
      StatObj_invoke OpPreInc d' two_slots = Ok (d', h2) /\
      peek h2 131072 8 = Some (wrapT 8 (0 + 1)) /\
      (forall q, ~ (131072 <= q < 131072 + 8) -> h2 !! q = two_slots !! q)) /\
   StatObj_binop Plus d' 5 two_slots = Ok (binop_value Plus 8 0 5, two_slots) /\
   StatObj_call d' (Some arena_X) two_slots = Ok (65536, two_slots) /\
   StatObj_value d' (Some arena_X) two_slots = Ok (0, two_slots)) /\
  (StatArray.offset a' = 8 /\
   StatObjBase.default_stats (StatArray.super a') = Some arena_X /\
   StatArray_index a' 0 two_slots = Ok (65544, two_slots) /\
   StatArray_call a' (Some arena_Y) two_slots = Ok (131080, two_slots) /\
   StatArray_value a' (Some arena_Y) 3 two_slots = Ok (0, two_slots)).
Proof.
  intros d' a'.
  pose (root := StatsBuilder.rootNode StatsBuilder_ctor).
  pose (d := StatObj.mk (StatObjBase.mk None "hits") 8 0 0).
  pose (ops := [OpSetDefaultStats (Some arena_X); OpPostInc;
                OpSetDefaultStats (Some arena_Y); OpPreInc]).
  pose (a := StatArray.mk (StatObjBase.mk None "latency_hist") 8 4 8 0).
  pose (aops := [ArrSetDefaultStats (Some arena_X); ArrIndex 0;
                 ArrCall (Some arena_Y)]).
  split.
  - destruct (proj1 C7_resolved_address "hits"%string 8 root StatsBuilder_ctor d
                (Statable_add_leaf (LeafObj d) root) (StatsBuilder.mk root 8)
                ops two_slots d' (final_heap (StatObj_run ops d two_slots)))
      as (_ & Ho & Hst & Harith & Hcall & Hval); [lia|reflexivity|reflexivity|].
    destruct (Harith arena_Y two_slots 0) as [Hinc Hbin];
      [reflexivity|discriminate|reflexivity|].
    split; [exact Ho|]. split; [exact Hst|].
    split; [exact (Hinc OpPreInc eq_refl)|].
    split; [exact (Hbin Plus 5 eq_refl)|].
    split; [exact (Hcall arena_X two_slots)|].
    exact (Hval arena_X two_slots 0 eq_refl).
  - destruct (proj2 C7_resolved_address "latency_hist"%string 8 4 root
                (StatsBuilder.mk root 8) a
                (Statable_add_leaf (LeafArr a) root) (StatsBuilder.mk root 40)
                aops two_slots a' two_slots)
      as (_ & Ho & Hst & Hidx & Hcall & Hval); [reflexivity|reflexivity|].
    split; [exact Ho|]. split; [exact Hst|].
    split; [apply (Hidx arena_X two_slots); [reflexivity|discriminate|lia]|].
    split; [exact (Hcall arena_Y two_slots)|].
    exact (Hval arena_Y 3 two_slots 0 eq_refl).
Defined.

(** ** The text format *)

(** C4, as stated, fails: after three increments the scalar [hits] is dumped
    as [hits:3] with no space after the colon, and the zeroed array
    [latency_hist] of four as [latency_hist: 0 0 0 0 ] with a space after
    the last element. *)
Lemma C4_text_format_differs :
  let hits := StatObj.mk (StatObjBase.mk None "hits") 8 0 0 in
  let hist := StatArray.mk (StatObjBase.mk None "latency_hist") 8 4 8 0 in
  outcome ((StatObj_run [OpSetDefaultStats (Some arena_X);
                         OpPostInc; OpPostInc; OpPostInc] hits ;;;
            StatObj_dump hits "" (Some arena_X)) one_arena)
    = Ok ("hits:3" ++ newline)%string /\
  Ok ("hits:3" ++ newline)%string <> Ok (spec_scalar_text "hits" 3) /\
  outcome (StatArray_dump hist "" (Some arena_X) one_arena)
    = Ok ("latency_hist: 0 0 0 0 " ++ newline)%string /\
  Ok ("latency_hist: 0 0 0 0 " ++ newline)%string
    <> Ok (spec_array_text "latency_hist" [0; 0; 0; 0]).
Proof. vm_compute. repeat split; (done || discriminate). Qed.

(** C4, amended: the text dump of a scalar appends the name, a colon, the
    value and a newline, with no space after the colon; the text dump of an
    array appends the name, a colon, a space, then each element in index
    order followed by one space, then a newline. *)
Theorem C4_text_dump_format :
  (forall d os s h v,
     peek h (wrap64 (Stats_base s + StatObj.offset d)) (StatObj.sizeofT d) = Some v ->
     StatObj_dump d os (Some s) h
     = Ok ((os ++ scalar_text (StatObjBase.name (StatObj.super d)) v)%string, h)) /\
  (forall a os s h vs,
     peek_elems h (wrap64 (Stats_base s + StatArray.offset a)) (StatArray.sizeofT a)
                0 (Z.to_nat (StatArray.size a)) = Some vs ->
     StatArray_dump a os (Some s) h
     = Ok ((os ++ array_text (StatObjBase.name (StatArray.super a)) vs)%string, h)).
Proof.
  split.
  - intros d os s h v Hv. unfold StatObj_dump, StatObj_call.
    unfold bind at 1. unfold ret at 1. by rewrite (bind_load _ _ _ _ _ Hv).
  - intros a os s h vs Hvs. unfold StatArray_dump, StatArray_call, foreach. cbv zeta.
    unfold bind at 1. unfold ret at 1. unfold bind at 1.
    rewrite (foreach_from_load (fun os v => (os ++ show v ++ " ")%string)
               _ _ _ _ _ _ _ Hvs).
    unfold ret, array_text. rewrite fold_spaced. by rewrite !append_assoc.
Qed.

(** C4, amended, on a zeroed scalar and a zeroed array of two. *)
Lemma C4_text_dump_format_witness :
  let hits := StatObj.mk (StatObjBase.mk None "hits") 8 0 0 in
  let hist := StatArray.mk (StatObjBase.mk None "latency_hist") 8 2 8 0 in
  StatObj_dump hits "" (Some arena_X) two_slots
    = Ok (("" ++ scalar_text "hits" 0)%string, two_slots) /\
  StatArray_dump hist "" (Some arena_X) two_slots
    = Ok (("" ++ array_text "latency_hist" [0; 0])%string, two_slots).
Proof.
  intros hits hist. split.
  - apply (proj1 C4_text_dump_format hits ""%string arena_X two_slots 0). reflexivity.
  - apply (proj2 C4_text_dump_format hist ""%string arena_X two_slots [0; 0]).
    reflexivity.
Defined.

(** ** Merging one arena into another *)

Section Merge.

(** [dest_stats] is X, [src_stats] is Y. *)
Variables X Y : Stats.t.

Lemma add_cell_spec (c : Z * Z) (h : heap) :
  arena_ok X h -> arena_ok Y h -> cell_fits c ->
  exists x y h',
    peek h (Stats_base X + cell_offset c) (cell_size c) = Some x /\
    peek h (Stats_base Y + cell_offset c) (cell_size c) = Some y /\
    add_cell X Y c h = Ok (tt, h') /\
    poke h (Stats_base X + cell_offset c) (cell_size c)
         (wrapT (cell_size c) (x + y)) = Some h'.
Proof.
  intros HX HY (Ho & Hsz & Hfit).
  destruct (slot_in_arena X h _ _ HX Ho Hsz Hfit) as [_ HalX].
  destruct (slot_in_arena Y h _ _ HY Ho Hsz Hfit) as [_ HalY].
  destruct (peek_allocated _ _ _ HalX) as [x Hx].
  destruct (peek_allocated _ _ _ HalY) as [y Hy].
  destruct (poke_allocated h _ _ (wrapT (cell_size c) (x + y)) HalX) as [h' Hh'].
  exists x, y, h'. repeat split; try done.
  unfold add_cell. rewrite (bind_load _ _ _ _ _ Hy), (bind_load _ _ _ _ _ Hx).
  unfold store. by rewrite Hh'.
Qed.

Lemma arena_ok_poke (s : Stats.t) (h h' : heap) p sz v :
  poke h p sz v = Some h' -> arena_ok s h -> arena_ok s h'.
Proof.
  intros Hp (Hb & Hw & Hal). repeat split; [done..|].
  eapply poke_keeps_allocated; eauto.
Qed.

Lemma add_cells_spec (cs : list (Z * Z)) (h : heap) :
  arena_ok X h -> arena_ok Y h -> arenas_apart X Y ->
  Forall cell_fits cs -> ForallOrdPairs cell_apart cs ->
  exists h',
    for_each (add_cell X Y) cs h = Ok (tt, h') /\
    (forall i, (forall c, c ∈ cs ->
                  ~ (Stats_base X + cell_offset c <= i
                     < Stats_base X + cell_offset c + cell_size c)) ->
               h' !! i = h !! i) /\
    (forall c, c ∈ cs ->
       exists x y,
         peek h (Stats_base X + cell_offset c) (cell_size c) = Some x /\
         peek h (Stats_base Y + cell_offset c) (cell_size c) = Some y /\
         peek h' (Stats_base X + cell_offset c) (cell_size c)
           = Some (wrapT (cell_size c) (x + y))).
Proof.
  intros HX HY Hap Hfits Hord. revert h HX HY.
  induction Hord as [|c cs Hc Hord IH]; intros h HX HY.
  - exists h. split; [done|]. split; [done|]. intros c Hc. by apply elem_of_nil in Hc.
  - apply Forall_cons in Hfits as [Hfit Hfits].
    destruct (add_cell_spec c h HX HY Hfit) as (x & y & h1 & Hx & Hy & Hrun & Hp).
    destruct (IH Hfits h1) as (h' & Hrest & Hframe & Hcells);
      [by eapply arena_ok_poke..|].
    rewrite Forall_forall in Hc, Hfits.
    exists h'. split; [|split].
    + cbn [for_each]. unfold bind. by rewrite Hrun.
    + intros i Hi. rewrite Hframe.
      * apply (poke_outside _ _ _ _ _ _ Hp). apply Hi. by left.
      * intros c' Hc'. apply Hi. by right.
    + intros c' [->|Hc']%elem_of_cons.
      * exists x, y. split; [done|]. split; [done|].
        destruct Hfit as (_ & Hsz & _).
        rewrite <- wrapT_idem.
        rewrite <- (peek_poke_same _ _ _ _ _ (Z.lt_le_incl _ _ Hsz) Hp).
        apply peek_ext. intros i Hi. apply Hframe. intros c' Hc'.
        specialize (Hc c' Hc'). unfold cell_apart in Hc. lia.
      * destruct (Hcells c' Hc') as (x' & y' & Hx' & Hy' & Hsum).
        exists x', y'. split; [|split; [|done]].
        -- rewrite <- Hx'. symmetry. apply (peek_poke_disjoint _ _ _ _ _ _ _ Hp).
           specialize (Hc c' Hc'). unfold cell_apart in Hc. lia.
        -- rewrite <- Hy'. symmetry. apply (peek_poke_disjoint _ _ _ _ _ _ _ Hp).
           destruct Hfit as (? & ? & ?). destruct (Hfits c' Hc') as (? & ? & ?).
           unfold arenas_apart in Hap. lia.
Qed.

Lemma then_ret_tt (m : M unit) (h : heap) : (m ;;; ret tt) h = m h.
Proof. unfold bind. by destruct (m h) as [[[] h']| |]. Qed.

Lemma for_each_app {A} (f : A -> M unit) (l1 l2 : list A) (h : heap) :
  for_each f (l1 ++ l2) h = (for_each f l1 ;;; for_each f l2) h.
Proof.
  revert h. induction l1 as [|x l1 IH]; intros h; [done|].
  cbn [for_each app]. unfold bind.
  destruct (f x h) as [[[] h1]| |]; [|done..]. by rewrite IH.
Qed.

Lemma for_each_ext {A} (f g : A -> M unit) (l : list A) :
  (forall x, x ∈ l -> forall h, f x h = g x h) ->
  forall h, for_each f l h = for_each g l h.
Proof.
  induction l as [|x l IH]; intros Hfg h; [done|].
  cbn [for_each]. unfold bind. rewrite (Hfg x) by (by left).
  destruct (g x h) as [[[] h1]| |]; [|done..].
  apply IH. intros y Hy. apply Hfg. by right.
Qed.

Lemma for_each_flat_map {A B} (g : B -> M unit) (cs : A -> list B) (l : list A)
    (h : heap) :
  for_each (fun x => for_each g (cs x)) l h = for_each g (flat_map cs l) h.
Proof.
  revert h. induction l as [|x l IH]; intros h; [done|].
  cbn [for_each flat_map]. rewrite for_each_app. unfold bind.
  destruct (for_each g (cs x) h) as [[[] h1]| |]; [|done..]. apply IH.
Qed.

Lemma arena_ok_range (s : Stats.t) (h : heap) : arena_ok s h -> arena_range s.
Proof. intros (? & ? & _). by split. Qed.

Lemma foreach_from_cells (body : Z -> unit -> M unit) (o sz : Z) :
  (forall i h, body i tt h = add_cell X Y (o + i * sz, sz) h) ->
  forall n i h,
    foreach_from i n body tt h = for_each (add_cell X Y) (cells_from o sz i n) h.
Proof.
  intros Hbody. induction n as [|n IH]; intros i h; [done|].
  cbn [foreach_from cells_from for_each]. unfold bind. rewrite Hbody.
  destruct (add_cell X Y (o + i * sz, sz) h) as [[[] h1]| |]; [|done..].
  apply IH.
Qed.

Lemma StatArray_add_loop (o sz i : Z) (n : nat) (h : heap) :
  foreach_from i n
    (fun i (_ : unit) =>
       s <- load (BaseArr_at (Stats_base Y + o) sz i) sz ;;
       v <- load (BaseArr_at (Stats_base X + o) sz i) sz ;;
       store (BaseArr_at (Stats_base X + o) sz i) sz (wrapT sz (v + s))) tt h
  = for_each (add_cell X Y) (cells_from o sz i n) h.
Proof.
  apply foreach_from_cells. clear. intros i h.
  unfold add_cell, BaseArr_at, cell_offset, cell_size. cbn [fst snd].
  by rewrite !Z.add_assoc.
Qed.

Lemma Leaf_add_stats_cells (l : Leaf) (h : heap) :
  arena_range X -> arena_range Y -> Leaf_fits l ->
  Leaf_add_stats l X Y h = for_each (add_cell X Y) (Leaf_cells l) h.
Proof.
  intros [HX HX'] [HY HY'] (Hsz & Hn & Ho & Hfit). unfold Leaf_bytes in Hfit.
  destruct l as [d|a]; cbn in Hsz, Hn, Ho, Hfit;
    cbn [Leaf_add_stats Leaf_cells for_each].
  - rewrite then_ret_tt.
    unfold StatObj_add_stats, StatObj_call, add_cell, cell_offset, cell_size.
    cbv zeta. cbn [fst snd]. unfold bind at 1. unfold ret at 1.
    unfold bind at 1. unfold ret at 1.
    rewrite !wrap64_small by (unfold STATS_SIZE in *; lia). done.
  - unfold StatArray_add_stats, StatArray_call, foreach. cbv zeta.
    unfold bind at 1. unfold ret at 1. unfold bind at 1. unfold ret at 1.
    destruct (decide (StatArray.size a = 0)) as [Hz|Hnz].
    + by rewrite Hz.
    + rewrite !wrap64_small by (unfold STATS_SIZE in *; nia).
      apply StatArray_add_loop.
Qed.

(** Induction on registry nodes, with the property known of every child. *)
Lemma Statable_induction (P : Statable.t -> Prop) :
  (forall cs ls nm ds, Forall P cs -> P (Statable.mk cs ls nm ds)) ->
  forall n, P n.
Proof.
  intros Hnode. fix IH 1. intros [cs ls nm ds]. apply Hnode.
  induction cs as [|c cs IHcs]; constructor; [apply IH|exact IHcs].
Qed.

Lemma Statable_add_stats_leaves (n : Statable.t) :
  forall h,
    Statable_add_stats n X Y h
    = for_each (fun l => Leaf_add_stats l X Y) (Statable_all_leaves n) h.
Proof.
  induction n as [cs ls nm ds IH] using Statable_induction. intros h.
  cbn [Statable_add_stats Statable_all_leaves Statable.leafs Statable.childNodes].
  rewrite for_each_app. unfold bind.
  destruct (for_each _ ls h) as [[[] h1]| |]; [|done..].
  clear h. revert h1. induction IH as [|c cs Hc _ IHcs]; intros h; [done|].
  rewrite for_each_app. unfold bind. rewrite Hc.
  destruct (for_each _ (Statable_all_leaves c) h) as [[[] h1]| |]; [|done..].
  apply IHcs.
Qed.

End Merge.

Lemma cells_from_elem (o sz i : Z) (n : nat) (c : Z * Z) :
  c ∈ cells_from o sz i n <->
  exists k, i <= k < i + Z.of_nat n /\ c = (o + k * sz, sz).
Proof.
  revert i. induction n as [|n IH]; intros i; cbn [cells_from].
  - split; [by intros ?%elem_of_nil|]. intros (k & ? & _). lia.
  - rewrite elem_of_cons, IH. split.
    + intros [->|(k & Hk & ->)]; [exists i|exists k]; split; (done || lia).
    + intros (k & Hk & ->). destruct (decide (k = i)) as [->|Hne]; [by left|].
      right. exists k. split; [lia|done].
Qed.

Lemma Leaf_cells_elem (l : Leaf) (c : Z * Z) :
  0 <= Leaf_count l ->
  c ∈ Leaf_cells l <->
  exists k, 0 <= k < Leaf_count l /\
            c = (Leaf_offset l + k * Leaf_sizeofT l, Leaf_sizeofT l).
Proof.
  intros Hn. destruct l as [d|a]; cbn [Leaf_cells Leaf_count Leaf_offset Leaf_sizeofT] in *.
  - rewrite list_elem_of_singleton. split.
    + intros ->. exists 0. split; [lia|]. f_equal. lia.
    + intros (k & Hk & ->). f_equal. assert (k = 0) as -> by lia. lia.
  - rewrite cells_from_elem. rewrite Z2Nat.id by done. done.
Qed.

Lemma cells_from_apart (o sz i : Z) (n : nat) :
  0 < sz -> ForallOrdPairs cell_apart (cells_from o sz i n).
Proof.
  intros Hsz. revert i. induction n as [|n IH]; intros i; cbn [cells_from];
    constructor; [|apply IH].
  apply Forall_forall. intros c (k & Hk & ->)%cells_from_elem.
  left. unfold cell_offset, cell_size. cbn. nia.
Qed.

Lemma ForallOrdPairs_app {A} (R : A -> A -> Prop) (l1 l2 : list A) :
  ForallOrdPairs R l1 -> ForallOrdPairs R l2 ->
  (forall x y, x ∈ l1 -> y ∈ l2 -> R x y) ->
  ForallOrdPairs R (l1 ++ l2).
Proof.
  intros H1 H2 H12. induction H1 as [|x l1 Hx H1 IH]; [done|].
  cbn [app]. constructor.
  - apply Forall_app. split; [done|].
    apply Forall_forall. intros y Hy. apply H12; [by left|done].
  - apply IH. intros a b Ha Hb. apply H12; [by right|done].
Qed.

Lemma pairwise_apart_cons (l : Leaf) (ls : list Leaf) :
  pairwise_apart (l :: ls) ->
  (forall B, B ∈ ls -> Leaf_apart l B) /\ pairwise_apart ls.
Proof.
  intros Hp. split.
  - intros B (j & Hj)%list_elem_of_lookup_1. by apply (Hp 0%nat (S j)).
  - intros i j A B Hij Hi Hj. apply (Hp (S i) (S j)); [lia|done..].
Qed.

Lemma layout_cells (ls : list Leaf) :
  layout_ok ls ->
  Forall cell_fits (flat_map Leaf_cells ls) /\
  ForallOrdPairs cell_apart (flat_map Leaf_cells ls).
Proof.
  intros [Hfits Hap]. induction Hfits as [|l ls Hl Hfits IH]; [by split; constructor|].
  apply pairwise_apart_cons in Hap as [Hl_ls Hap].
  destruct (IH Hap) as [IHfit IHap].
  pose proof Hl as (Hsz & Hn & Ho & Hfit). unfold Leaf_bytes in Hfit.
  assert (forall c, c ∈ Leaf_cells l -> cell_fits c) as Hcl.
  { intros c (k & Hk & ->)%Leaf_cells_elem; [|done].
    unfold cell_fits, cell_offset, cell_size. cbn. nia. }
  cbn [flat_map]. split.
  - apply Forall_app. split; [by apply Forall_forall|done].
  - apply ForallOrdPairs_app; [|done|].
    + destruct l as [d|a]; cbn [Leaf_cells].
      * repeat constructor.
      * by apply cells_from_apart.
    + intros c c' (k & Hk & ->)%Leaf_cells_elem Hc'; [|done].
      apply list_elem_of_In, in_flat_map in Hc' as (B & HB%list_elem_of_In & Hc').
      rewrite Forall_forall in Hfits.
      destruct (Hfits B HB) as (HszB & HnB & HoB & HfitB). unfold Leaf_bytes in HfitB.
      apply list_elem_of_In, Leaf_cells_elem in Hc' as (k' & Hk' & ->); [|done].
      specialize (Hl_ls B HB). unfold Leaf_apart, Leaf_bytes in Hl_ls.
      unfold cell_apart, cell_offset, cell_size. cbn. nia.
Qed.

Lemma Leaf_value_peek (l : Leaf) (X : Stats.t) (i : Z) (h : heap) (v : Z) :
  arena_range X -> Leaf_fits l -> 0 <= i < Leaf_count l ->
  peek h (Stats_base X + (Leaf_offset l + i * Leaf_sizeofT l)) (Leaf_sizeofT l)
    = Some v ->
  Leaf_value l X i h = Ok (v, h).
Proof.
  intros [HX HX'] (Hsz & Hn & Ho & Hfit) Hi Hv. unfold Leaf_bytes in Hfit.
  destruct l as [d|a]; cbn in Hsz, Hn, Ho, Hfit, Hi, Hv; cbn [Leaf_value].
  - apply StatObj_value_peek. rewrite wrap64_small by (unfold STATS_SIZE in *; lia).
    assert (i = 0) as -> by lia. rewrite <- Hv. f_equal. lia.
  - unfold StatArray_value, StatArray_call, BaseArr_at.
    unfold bind at 1. unfold ret at 1.
    rewrite wrap64_small by (unfold STATS_SIZE in *; nia).
    unfold load. rewrite <- Z.add_assoc. by rewrite Hv.
Qed.

(** C5: the registry's leaves lie inside the arena without overlapping, X
    and Y are two live arenas in different blocks.  Merging Y into X goes
    through; afterwards every element of every leaf (the one element of a
    scalar) holds in X the sum, in the arithmetic of [T], of what it held
    in X and what it holds in Y, and no byte of Y has changed. *)
Theorem C5_merge_adds_leafwise (b : StatsBuilder.t) (X Y : Stats.t) (h : heap) :
  layout_ok (Statable_all_leaves (StatsBuilder.rootNode b)) ->
  arena_ok X h -> arena_ok Y h -> arenas_apart X Y ->
  exists h',
    StatsBuilder_add_stats b X Y h = Ok (tt, h') /\
    (forall p, Stats_base Y <= p < Stats_base Y + STATS_SIZE -> h' !! p = h !! p) /\
    (forall l i, l ∈ Statable_all_leaves (StatsBuilder.rootNode b) ->
       0 <= i < Leaf_count l ->
       exists x y,
         Leaf_value l X i h = Ok (x, h) /\
         Leaf_value l Y i h = Ok (y, h) /\
         Leaf_value l X i h' = Ok (wrapT (Leaf_sizeofT l) (x + y), h') /\
         Leaf_value l Y i h' = Ok (y, h')).
Proof.
  intros Hlay HX HY Hap.
  set (ls := Statable_all_leaves (StatsBuilder.rootNode b)) in *.
  destruct (layout_cells ls Hlay) as [Hcfit Hcap].
  destruct Hlay as [Hfits _]. rewrite Forall_forall in Hfits.
  destruct (add_cells_spec X Y _ h HX HY Hap Hcfit Hcap) as (h' & Hrun & Hframe & Hcells).
  pose proof (arena_ok_range _ _ HX) as HrX.
  pose proof (arena_ok_range _ _ HY) as HrY.
  assert (forall p, Stats_base Y <= p < Stats_base Y + STATS_SIZE -> h' !! p = h !! p)
    as HYsame.
  { intros p Hp. apply Hframe. intros c Hc.
    rewrite Forall_forall in Hcfit. destruct (Hcfit c Hc) as (? & ? & ?).
    unfold arenas_apart in Hap. lia. }
  exists h'. split; [|split; [done|]].
  - unfold StatsBuilder_add_stats. rewrite Statable_add_stats_leaves.
    rewrite <- Hrun, <- for_each_flat_map. apply for_each_ext.
    intros l Hl h0. by apply Leaf_add_stats_cells, Hfits.
  - intros l i Hl Hi. pose proof (Hfits l Hl) as Hfit.
    pose proof Hfit as (Hsz & Hn & Ho & Hb). unfold Leaf_bytes in Hb.
    set (c := (Leaf_offset l + i * Leaf_sizeofT l, Leaf_sizeofT l)).
    assert (c ∈ flat_map Leaf_cells ls) as Hc.
    { apply list_elem_of_In, in_flat_map. exists l. split; [by apply list_elem_of_In|].
      apply list_elem_of_In, Leaf_cells_elem; [done|]. by exists i. }
    destruct (Hcells c Hc) as (x & y & Hx & Hy & Hsum).
    exists x, y. repeat split; apply Leaf_value_peek; try done.
    rewrite <- Hy. apply peek_ext. intros p Hp. apply HYsame.
    unfold c, cell_offset, cell_size in *. cbn in *. nia.
Qed.

Lemma cache_layout_ok :
  layout_ok (Statable_all_leaves (StatsBuilder.rootNode cache_builder)).
Proof.
  change (Statable_all_leaves (StatsBuilder.rootNode cache_builder))
    with [LeafObj cache_hits; LeafArr cache_latency_hist].
  split.
  - constructor; [|constructor; [|constructor]];
      unfold Leaf_fits, Leaf_bytes, STATS_SIZE; cbn; lia.
  - intros i j A B Hij Hi Hj.
    destruct i as [|[|i]], j as [|[|j]]; cbn in Hi, Hj; simplify_eq;
      unfold Leaf_apart, Leaf_bytes; cbn; lia.
Qed.

(** C5 on the example registry and two fresh arenas. *)
Lemma C5_merge_adds_leafwise_witness :
  exists h',
    StatsBuilder_add_stats cache_builder arena_X arena_Y two_arenas = Ok (tt, h') /\
    (forall p, Stats_base arena_Y <= p < Stats_base arena_Y + STATS_SIZE ->
               h' !! p = two_arenas !! p) /\
    (forall l i,
       l ∈ Statable_all_leaves (StatsBuilder.rootNode cache_builder) ->
       0 <= i < Leaf_count l ->
       exists x y,
         Leaf_value l arena_X i two_arenas = Ok (x, two_arenas) /\
         Leaf_value l arena_Y i two_arenas = Ok (y, two_arenas) /\
         Leaf_value l arena_X i h' = Ok (wrapT (Leaf_sizeofT l) (x + y), h') /\
         Leaf_value l arena_Y i h' = Ok (y, h')).
Proof.
  apply (C5_merge_adds_leafwise cache_builder arena_X arena_Y two_arenas).
  - exact cache_layout_ok.
  - exact arena_X_ok.
  - exact arena_Y_ok.
  - exact arena_X_Y_apart.
Defined.

(* ===================================================================== *)
(** * Further properties of the header                                    *)
(* ===================================================================== *)

(** ** Increment and decrement through the default target *)

(** X1: on a scalar whose target is set and whose cell holds [v],
    [operator++(int)] returns [v] and [operator++()] returns [v + 1] in the
    arithmetic of [T]; both leave [v + 1] in the cell.  The decrements
    mirror this with [v - 1].  No other byte of the store changes. *)
Theorem X1_inc_dec_values (d : StatObj.t) (h : heap) (v : Z) :
  StatObj.default_var d <> 0 ->
  0 <= StatObj.sizeofT d ->
  peek h (StatObj.default_var d) (StatObj.sizeofT d) = Some v ->
  exists hi hd,
    StatObj_post_inc d h = Ok (v, hi) /\
    StatObj_pre_inc d h = Ok (wrapT (StatObj.sizeofT d) (v + 1), hi) /\
    StatObj_post_dec d h = Ok (v, hd) /\
    StatObj_pre_dec d h = Ok (wrapT (StatObj.sizeofT d) (v - 1), hd) /\
    peek hi (StatObj.default_var d) (StatObj.sizeofT d)
      = Some (wrapT (StatObj.sizeofT d) (v + 1)) /\
    peek hd (StatObj.default_var d) (StatObj.sizeofT d)
      = Some (wrapT (StatObj.sizeofT d) (v - 1)) /\
    (forall p, ~ (StatObj.default_var d <= p
                  < StatObj.default_var d + StatObj.sizeofT d) ->
               hi !! p = h !! p /\ hd !! p = h !! p).
Proof.
  intros Hq Hsz Hv. pose proof (peek_Some_allocated _ _ _ _ Hv) as Hal.
  destruct (poke_allocated h _ _ (wrapT (StatObj.sizeofT d) (v + 1)) Hal) as [hi Hhi].
  destruct (poke_allocated h _ _ (wrapT (StatObj.sizeofT d) (v - 1)) Hal) as [hd Hhd].
  pose proof (peek_poke_same _ _ _ _ _ Hsz Hhi) as Hri.
  pose proof (peek_poke_same _ _ _ _ _ Hsz Hhd) as Hrd.
  rewrite wrapT_idem in Hri, Hrd.
  exists hi, hd. repeat apply conj; try done.
  - unfold StatObj_post_inc. by run_default_write Hv Hhi.
  - unfold StatObj_pre_inc. run_default_write Hv Hhi. unfold load. by rewrite Hri.
  - unfold StatObj_post_dec. by run_default_write Hv Hhd.
  - unfold StatObj_pre_dec. run_default_write Hv Hhd. unfold load. by rewrite Hrd.
  - intros p Hp. split.
    + by apply (poke_outside _ _ _ _ _ _ Hhi).
    + by apply (poke_outside _ _ _ _ _ _ Hhd).
Qed.

(** X1 on the scalar of the example, retargeted to the first arena. *)
Lemma X1_inc_dec_values_witness :
  let d := StatObj.mk (StatObjBase.mk (Some arena_X) "hits") 8 0 65536 in
  exists hi hd,
    StatObj_post_inc d two_slots = Ok (0, hi) /\
    StatObj_pre_inc d two_slots = Ok (wrapT 8 (0 + 1), hi) /\
    StatObj_post_dec d two_slots = Ok (0, hd) /\
    StatObj_pre_dec d two_slots = Ok (wrapT 8 (0 - 1), hd) /\
    peek hi 65536 8 = Some (wrapT 8 (0 + 1)) /\
    peek hd 65536 8 = Some (wrapT 8 (0 - 1)) /\
    (forall p, ~ (65536 <= p < 65536 + 8) ->
               hi !! p = two_slots !! p /\ hd !! p = two_slots !! p).
Proof.
  intros d. apply (X1_inc_dec_values d two_slots 0); [discriminate|cbn; lia|reflexivity].
Defined.

Lemma wrapT_add_l (sz a b : Z) : wrapT sz (wrapT sz a + b) = wrapT sz (a + b).
Proof. unfold wrapT. apply Zplus_mod_idemp_l. Qed.

(** X2: any sequence of increments and decrements (pre or post) on a scalar
    whose target is set and whose cell holds a value [v] of [T] goes
    through and leaves in the cell [v] plus the number of increments minus
    the number of decrements, in the arithmetic of [T]; an increment
    followed by a decrement restores the value.  No other byte changes and
    the descriptor is the same. *)
Theorem X2_inc_dec_run_value (ops : list StatObj_op) (d : StatObj.t) (h : heap) (v : Z) :
  forallb is_inc_dec ops = true ->
  StatObj.default_var d <> 0 ->
  0 <= StatObj.sizeofT d ->
  wrapT (StatObj.sizeofT d) v = v ->
  peek h (StatObj.default_var d) (StatObj.sizeofT d) = Some v ->
  exists h',
    StatObj_run ops d h = Ok (d, h') /\
    peek h' (StatObj.default_var d) (StatObj.sizeofT d)
      = Some (wrapT (StatObj.sizeofT d) (v + net_delta ops)) /\
    (forall p, ~ (StatObj.default_var d <= p
                  < StatObj.default_var d + StatObj.sizeofT d) ->
               h' !! p = h !! p).
Proof.
  intros Hops Hq Hsz. revert h v.
  induction ops as [|op ops IH]; intros h v Hcan Hv.
  - exists h. cbn [net_delta]. rewrite Z.add_0_r, Hcan. by repeat split.
  - cbn [forallb] in Hops. apply andb_prop in Hops as [Hop Hops].
    destruct (StatObj_inc_dec_step_value op d h v Hop Hq Hsz Hv)
      as (h1 & Hone & Hv1 & Hout1).
    destruct (IH Hops h1 _ (wrapT_idem _ _) Hv1) as (h' & Hrun & Hv' & Hout).
    exists h'. split; [|split].
    + cbn [StatObj_run]. unfold bind. by rewrite Hone.
    + rewrite Hv'. cbn [net_delta]. by rewrite wrapT_add_l, Z.add_assoc.
    + intros p Hp. by rewrite Hout, Hout1.
Qed.

(** X2 on three increments and one decrement. *)
Lemma X2_inc_dec_run_value_witness :
  let d := StatObj.mk (StatObjBase.mk (Some arena_X) "hits") 8 0 65536 in
  let ops := [OpPostInc; OpPreInc; OpPostDec; OpPreInc] in
  exists h',
    StatObj_run ops d two_slots = Ok (d, h') /\
    peek h' 65536 8 = Some (wrapT 8 (0 + net_delta ops)) /\
    (forall p, ~ (65536 <= p < 65536 + 8) -> h' !! p = two_slots !! p).
Proof.
  intros d ops.
  apply (X2_inc_dec_run_value ops d two_slots 0);
    [reflexivity | discriminate | cbn; lia | reflexivity | reflexivity].
Defined.

(** ** Descriptors without a target, and fresh descriptors *)

Lemma assert_ptr_null {A} (k : M A) (h : heap) : (assert_ptr 0 ;;; k) h = AssertFail.
Proof. done. Qed.

(** X3: a scalar constructed under a node that has no default arena has no
    target, and every member function that asserts [default_var] (the two
    increments, the two decrements, the eight binary operators and the YAML
    dump) aborts on it, whatever the store holds.  A binary operator with
    another descriptor aborts as soon as that operand has no target.  An
    array constructed under such a node aborts on every [operator[]]. *)
Theorem X3_no_target_aborts :
  (forall name sizeofT parent builder d parent' builder' op h,
     Statable_get_default_stats parent = None ->
     StatObj_ctor name sizeofT parent builder = Ok (d, parent', builder') ->
     asserts_default_var op = true ->
     StatObj_invoke op d h = AssertFail) /\
  (forall op d statObj h,
     StatObj.default_var statObj = 0 ->
     StatObj_binop_obj op d statObj h = AssertFail) /\
  (forall name sizeofT size parent builder a parent' builder' index h,
     Statable_get_default_stats parent = None ->
     StatArray_ctor name sizeofT size parent builder = Ok (a, parent', builder') ->
     StatArray_index a index h = AssertFail).
Proof.
  repeat apply conj.
  - intros name sizeofT parent builder d parent' builder' op h Hnone Hc Hop.
    unfold StatObj_ctor, StatObjBase_ctor in Hc. rewrite Hnone in Hc.
    destruct (StatsBuilder_get_offset _ _) as [[off b1]| |]; [|done..].
    cbn in Hc. simplify_eq.
    destruct op; try discriminate Hop; reflexivity.
  - intros op d statObj h Hnull. unfold StatObj_binop_obj, bind, assert_ptr, assert.
    rewrite Hnull. by destruct (negb (StatObj.default_var d =? 0)).
  - intros name sizeofT size parent builder a parent' builder' index h Hnone Hc.
    unfold StatArray_ctor, StatObjBase_ctor in Hc. rewrite Hnone in Hc.
    destruct (StatsBuilder_get_offset _ _) as [[off b1]| |]; [|done..].
    cbn in Hc. simplify_eq.
    unfold StatArray_index, bind, assert. cbn.
    by destruct (index <? size).
Qed.

(** X3 on the example's scalar and array, declared under the bare root. *)
Lemma X3_no_target_aborts_witness :
  let root := StatsBuilder.rootNode StatsBuilder_ctor in
  StatObj_invoke OpPreInc cache_hits two_slots = AssertFail /\
  StatObj_binop_obj Plus
    (StatObj.mk (StatObjBase.mk (Some arena_X) "misses") 8 8 65544)
    cache_hits two_slots = AssertFail /\
  StatArray_index cache_latency_hist 2 two_slots = AssertFail.
Proof.
  intros root. split; [|split].
  - apply (proj1 X3_no_target_aborts "hits"%string 8 root StatsBuilder_ctor
             cache_hits (Statable_add_leaf (LeafObj cache_hits) root)
             (StatsBuilder.mk root 8)); reflexivity.
  - apply (proj1 (proj2 X3_no_target_aborts)). reflexivity.
  - apply (proj2 (proj2 X3_no_target_aborts) "latency_hist"%string 8 4 root
             (StatsBuilder.mk root 8) cache_latency_hist
             (Statable_add_leaf (LeafArr cache_latency_hist) root)
             (StatsBuilder.mk root 40)); reflexivity.
Defined.

(** X4: a scalar constructed under a node whose default arena is live can
    be incremented at once, with no call to [set_default_stats]: the
    constructor takes the parent's arena, the offset is the builder's
    cursor before the construction, and the increment lands in that arena
    at that offset.  The new descriptor is the parent's last leaf. *)
Theorem X4_fresh_descriptor_usable
    (name : string) (sizeofT : Z) (parent parent' : Statable.t)
    (builder builder' : StatsBuilder.t) (s : Stats.t) (d : StatObj.t) (h : heap) :
  0 < sizeofT < 2 ^ 31 ->
  0 <= StatsBuilder.stat_offset builder < STATS_SIZE ->
  Statable_get_default_stats parent = Some s ->
  arena_ok s h ->
  StatObj_ctor name sizeofT parent builder = Ok (d, parent', builder') ->
  StatObj.offset d = StatsBuilder.stat_offset builder /\
  Statable.leafs parent' = Statable.leafs parent ++ [LeafObj d] /\
  exists v h',
    StatObj_value d (Some s) h = Ok (v, h) /\
    StatObj_post_inc d h = Ok (v, h') /\
    StatObj_value d (Some s) h' = Ok (wrapT sizeofT (v + 1), h').
Proof.
  intros Hsz Hc Hdef Hs Hctor.
  unfold StatObj_ctor, StatObjBase_ctor in Hctor. rewrite Hdef in Hctor.
  rewrite to_int_small in Hctor by lia.
  destruct (decide (StatsBuilder.stat_offset builder + sizeofT < STATS_SIZE)) as [Hlt|Hge];
    [|rewrite get_offset_abort in Hctor by lia; done].
  rewrite get_offset_ok in Hctor by lia. cbn in Hctor. simplify_eq.
  split; [done|]. split; [done|].
  destruct (slot_in_arena s h (StatsBuilder.stat_offset builder) sizeofT Hs)
    as [Hp Hal]; [lia..|].
  destruct (peek_allocated _ _ _ Hal) as [v Hv].
  destruct (poke_allocated h _ _ (wrapT sizeofT (v + 1)) Hal) as [h' Hh'].
  pose proof (peek_poke_same _ _ _ _ _ (Z.lt_le_incl _ _ (proj1 Hsz)) Hh') as Hr.
  rewrite wrapT_idem in Hr.
  exists v, h'. split; [|split].
  - apply StatObj_value_peek. cbn. by rewrite Hp.
  - unfold StatObj_post_inc. cbn. rewrite Hp.
    rewrite bind_assert_ptr by (destruct Hs; lia).
    rewrite (bind_load _ _ _ _ _ Hv). by rewrite (bind_store _ _ _ _ _ _ Hh').
  - apply StatObj_value_peek. cbn. by rewrite Hp.
Qed.

(** X4 on a scalar declared under a node bound to the first arena. *)
Lemma X4_fresh_descriptor_usable_witness :
  let parent := Statable.mk [] [] "cache" (Some arena_X) in
  let d := StatObj.mk (StatObjBase.mk (Some arena_X) "hits") 8 0 65536 in
  StatObj.offset d = StatsBuilder.stat_offset StatsBuilder_ctor /\
  Statable.leafs (Statable_add_leaf (LeafObj d) parent)
    = Statable.leafs parent ++ [LeafObj d] /\
  exists v h',
    StatObj_value d (Some arena_X) two_arenas = Ok (v, two_arenas) /\
    StatObj_post_inc d two_arenas = Ok (v, h') /\
    StatObj_value d (Some arena_X) h' = Ok (wrapT 8 (v + 1), h').
Proof.
  intros parent d.
  apply (X4_fresh_descriptor_usable "hits" 8 parent
           (Statable_add_leaf (LeafObj d) parent) StatsBuilder_ctor
           (StatsBuilder.mk (StatsBuilder.rootNode StatsBuilder_ctor) 8)
           arena_X d two_arenas).
  - lia.
  - cbn. unfold STATS_SIZE. lia.
  - reflexivity.
  - exact arena_X_ok.
  - reflexivity.
Defined.

(** ** How the builder packs a registry *)

Lemma leaf_of_decl_bytes (d : decl) (l : Leaf) :
  leaf_of_decl d l -> Leaf_bytes l = decl_bytes d.
Proof.
  destruct d, l; cbn; unfold Leaf_bytes; cbn; try done.
  - intros ->. lia.
  - by intros [-> ->].
Qed.

Lemma decl_bytes_range (d : decl) : decl_wf d -> 0 <= decl_bytes d < 2 ^ 31.
Proof. destruct d; cbn; intros ?; nia. Qed.

Lemma construct_step (d : decl) (b : StatsBuilder.t) :
  decl_wf d ->
  0 <= StatsBuilder.stat_offset b < STATS_SIZE ->
  (StatsBuilder.stat_offset b + decl_bytes d < STATS_SIZE ->
   exists l b',
     construct d b = Ok (l, b') /\
     Leaf_offset l = StatsBuilder.stat_offset b /\
     StatsBuilder.stat_offset b' = StatsBuilder.stat_offset b + decl_bytes d) /\
  (STATS_SIZE <= StatsBuilder.stat_offset b + decl_bytes d ->
   construct d b = AssertFail).
Proof.
  intros Hwf Hc. pose proof (decl_bytes_range d Hwf) as Hb.
  destruct d as [nm sz parent | nm sz n parent]; cbn in Hwf, Hb;
    cbn [construct decl_bytes]; unfold StatObj_ctor, StatArray_ctor;
    rewrite ?wrap64_small by lia; rewrite to_int_small by lia.
  - split; intros Hr.
    + rewrite get_offset_ok by lia. cbn. eauto.
    + by rewrite get_offset_abort by lia.
  - split; intros Hr.
    + rewrite get_offset_ok by lia. cbn. eauto.
    + by rewrite get_offset_abort by lia.
Qed.

Lemma total_bytes_nonneg (ds : list decl) : Forall decl_wf ds -> 0 <= total_bytes ds.
Proof.
  induction 1 as [|d ds Hd _ IH]; cbn [total_bytes]; [done|].
  pose proof (decl_bytes_range d Hd). lia.
Qed.

(** X5: a list of well-formed declarations can be constructed against a
    builder exactly when the cursor plus the total of their byte sizes stays
    strictly below [STATS_SIZE]; otherwise the run ends in a failed
    assertion.  After a successful run the cursor has advanced by exactly
    that total. *)
Theorem X5_registry_fits_iff (ds : list decl) (b : StatsBuilder.t) :
  Forall decl_wf ds ->
  0 <= StatsBuilder.stat_offset b < STATS_SIZE ->
  (StatsBuilder.stat_offset b + total_bytes ds < STATS_SIZE ->
   exists ls b',
     construct_all ds b = Ok (ls, b') /\
     StatsBuilder.stat_offset b' = StatsBuilder.stat_offset b + total_bytes ds) /\
  (STATS_SIZE <= StatsBuilder.stat_offset b + total_bytes ds ->
   construct_all ds b = AssertFail).
Proof.
  intros Hwf. revert b. induction Hwf as [|d ds Hd Hds IH]; intros b Hc.
  - cbn [total_bytes construct_all]. split; intros Hr; [|lia].
    exists [], b. split; [done|lia].
  - pose proof (decl_bytes_range d Hd) as Hb.
    pose proof (total_bytes_nonneg ds Hds) as Ht.
    destruct (construct_step d b Hd Hc) as [Hok Hab].
    cbn [total_bytes construct_all]. split; intros Hr.
    + destruct Hok as (l & b1 & Hone & _ & Hcur); [lia|].
      destruct (IH b1) as [Hrest _]; [lia|].
      destruct Hrest as (ls & b' & Hrun & Hfin); [lia|].
      exists (l :: ls), b'. rewrite Hone. cbn. rewrite Hrun. cbn. split; [done|lia].
    + destruct (decide (StatsBuilder.stat_offset b + decl_bytes d < STATS_SIZE)) as [Hlt|Hge].
      * destruct (Hok Hlt) as (l & b1 & Hone & _ & Hcur).
        destruct (IH b1) as [_ Hrest]; [lia|].
        rewrite Hone. cbn. rewrite Hrest by lia. done.
      * rewrite Hab by lia. done.
Qed.

(** X5 on the two declarations of the example, and on an array that asks
    for all of [STATS_SIZE]. *)
Lemma X5_registry_fits_iff_witness :
  let root := StatsBuilder.rootNode StatsBuilder_ctor in
  (exists ls b',
     construct_all [DeclObj "hits" 8 root; DeclArr "latency_hist" 8 4 root]
                   StatsBuilder_ctor = Ok (ls, b') /\
     StatsBuilder.stat_offset b' = 0 + (8 + (8 * 4 + 0))) /\
  construct_all [DeclObj "hits" 8 root; DeclArr "all" 8 1279 root]
                StatsBuilder_ctor = AssertFail.
Proof.
  intros root. split.
  - apply (X5_registry_fits_iff
             [DeclObj "hits" 8 root; DeclArr "latency_hist" 8 4 root] StatsBuilder_ctor).
    + repeat constructor; cbn; lia.
    + cbn. unfold STATS_SIZE. lia.
    + cbn. unfold STATS_SIZE. lia.
  - apply (X5_registry_fits_iff
             [DeclObj "hits" 8 root; DeclArr "all" 8 1279 root] StatsBuilder_ctor).
    + repeat constructor; cbn; lia.
    + cbn. unfold STATS_SIZE. lia.
    + cbn. unfold STATS_SIZE. lia.
Defined.

(** X6: declarations whose byte sizes fit the [int] parameter of
    [get_offset] ([sizeof(T) * count] below [2^31]) are packed without gaps:
    the offset of the [i]-th descriptor constructed is the initial cursor
    plus the byte sizes of the [i] declarations before it, so each
    descriptor starts where the one before it ends. *)
Theorem X6_offsets_are_prefix_sums
    (ds : list decl) (b b' : StatsBuilder.t) (ls : list Leaf) :
  Forall decl_wf ds ->
  0 <= StatsBuilder.stat_offset b < STATS_SIZE ->
  construct_all ds b = Ok (ls, b') ->
  length ls = length ds /\
  forall (i : nat) l, ls !! i = Some l ->
    Leaf_offset l = StatsBuilder.stat_offset b + total_bytes (take i ds) /\
    Leaf_offset l + Leaf_bytes l
      = StatsBuilder.stat_offset b + total_bytes (take (S i) ds).
Proof.
  intros Hwf. revert b ls. induction Hwf as [|d ds Hd Hds IH]; intros b ls Hc Hrun.
  - cbn in Hrun. simplify_eq. split; [done|]. intros i l Hl.
    by rewrite lookup_nil in Hl.
  - cbn [construct_all] in Hrun.
    destruct (construct d b) as [[l0 b1]| |] eqn:Hone; cbn in Hrun; try done.
    destruct (construct_all ds b1) as [[ls' b2]| |] eqn:Hrest; cbn in Hrun; try done.
    simplify_eq.
    destruct (construct_spec _ _ _ _ Hd Hc Hone) as (Hk & Hoff & Hcur & _ & Hlt).
    pose proof (leaf_of_decl_bytes _ _ Hk) as Hbytes.
    pose proof (decl_bytes_range d Hd) as Hb.
    destruct (IH b1 ls') as [Hlen Hpre]; [lia|done|].
    split; [cbn; by rewrite Hlen|].
    intros [|i] l Hl; cbn in Hl.
    + simplify_eq. rewrite firstn_cons, !take_0. cbn [total_bytes]. lia.
    + destruct (Hpre i l Hl) as [H1 H2]. rewrite !firstn_cons. cbn [total_bytes]. lia.
Qed.

(** X6 on the two declarations of the example. *)
Lemma X6_offsets_are_prefix_sums_witness :
  let root := StatsBuilder.rootNode StatsBuilder_ctor in
  let ds := [DeclObj "hits" 8 root; DeclArr "latency_hist" 8 4 root] in
  let ls := [LeafObj cache_hits; LeafArr cache_latency_hist] in
  length ls = length ds /\
  forall (i : nat) l, ls !! i = Some l ->
    Leaf_offset l = 0 + total_bytes (take i ds) /\
    Leaf_offset l + Leaf_bytes l = 0 + total_bytes (take (S i) ds).
Proof.
  intros root ds ls.
  apply (X6_offsets_are_prefix_sums ds StatsBuilder_ctor (StatsBuilder.mk root 40) ls).
  - repeat constructor; cbn; lia.
  - cbn. unfold STATS_SIZE. lia.
  - reflexivity.
Defined.

(** X7: a descriptor the builder has constructed from a declaration whose
    byte size fits the [int] parameter of [get_offset], together with others
    of that kind, can be read in any live arena: every element, through
    [operator()], lies in owned bytes of the arena, so the read returns a
    value and leaves the store as it was. *)
Theorem X7_constructed_leaves_readable
    (ds : list decl) (b b' : StatsBuilder.t) (ls : list Leaf)
    (s : Stats.t) (h : heap) :
  Forall decl_wf ds ->
  0 <= StatsBuilder.stat_offset b < STATS_SIZE ->
  construct_all ds b = Ok (ls, b') ->
  arena_ok s h ->
  forall l i, l ∈ ls -> 0 <= i < Leaf_count l ->
    exists v, Leaf_value l s i h = Ok (v, h).
Proof.
  intros Hwf Hc Hrun Hs l i Hl Hi.
  destruct (constructed_layout_ok _ _ _ _ Hwf Hc Hrun) as [Hfits _].
  rewrite Forall_forall in Hfits. pose proof (Hfits l Hl) as Hfit.
  pose proof Hfit as (Hsz & Hn & Ho & Hb). unfold Leaf_bytes in Hb.
  destruct (slot_in_arena s h (Leaf_offset l + i * Leaf_sizeofT l) (Leaf_sizeofT l) Hs)
    as [_ Hal]; [nia..|].
  rewrite Z.add_assoc in Hal. destruct (peek_allocated _ _ _ Hal) as [v Hv].
  exists v. apply Leaf_value_peek; [by eapply arena_ok_range|done..|].
  by rewrite Z.add_assoc.
Qed.

(** X7 on the example's declarations: the last element of the histogram,
    read in the second arena. *)
Lemma X7_constructed_leaves_readable_witness :
  let root := StatsBuilder.rootNode StatsBuilder_ctor in
  exists v,
    Leaf_value (LeafArr cache_latency_hist) arena_Y 3 two_arenas
    = Ok (v, two_arenas).
Proof.
  intros root.
  apply (X7_constructed_leaves_readable
           [DeclObj "hits" 8 root; DeclArr "latency_hist" 8 4 root]
           StatsBuilder_ctor (StatsBuilder.mk root 40)
           [LeafObj cache_hits; LeafArr cache_latency_hist] arena_Y two_arenas).
  - repeat constructor; cbn; lia.
  - cbn. unfold STATS_SIZE. lia.
  - reflexivity.
  - exact arena_Y_ok.
  - apply elem_of_cons; right. apply elem_of_cons; left. reflexivity.
  - cbn. lia.
Defined.

(** ** More on the dumps *)

Lemma foreach_from_keeps_store {S} (body : Z -> S -> M S) :
  (forall k s h s' h', body k s h = Ok (s', h') -> h' = h) ->
  forall n i s h s' h', foreach_from i n body s h = Ok (s', h') -> h' = h.
Proof.
  intros Hbody. induction n as [|n IH]; intros i s h s' h' Hrun.
  - unfold foreach_from, ret in Hrun. by simplify_eq.
  - cbn [foreach_from] in Hrun.
    apply bind_Ok_inv in Hrun as (s1 & h1 & Hone & Hrest).
    apply Hbody in Hone as ->. by apply IH in Hrest.
Qed.

Lemma load_then_ret_keeps_store {S} (p sz : Z) (f : Z -> S) (h h' : heap) (s' : S) :
  (v <- load p sz ;; ret (f v)) h = Ok (s', h') -> h' = h.
Proof.
  intros Hrun. apply bind_Ok_inv in Hrun as (v & h1 & [-> _]%load_Ok_inv & Hr).
  unfold ret in Hr. by simplify_eq.
Qed.

(** X8: no dump writes to the store: whenever the text or the YAML dump of a
    scalar or of an array returns, the store is the one it was given. *)
Theorem X8_dumps_keep_store :
  (forall d os stats h os' h',
     StatObj_dump d os stats h = Ok (os', h') -> h' = h) /\
  (forall d out stats h out' h',
     StatObj_dump_yaml d out stats h = Ok (out', h') -> h' = h) /\
  (forall a os stats h os' h',
     StatArray_dump a os stats h = Ok (os', h') -> h' = h) /\
  (forall a out stats h out' h',
     StatArray_dump_yaml a out stats h = Ok (out', h') -> h' = h).
Proof.
  repeat apply conj.
  - intros d os [s|] h os' h' Hrun; [|done].
    unfold StatObj_dump, StatObj_call in Hrun.
    unfold bind at 1 in Hrun. unfold ret at 1 in Hrun.
    by apply (load_then_ret_keeps_store _ _ (fun v => _)) in Hrun.
  - intros d out [s|] h out' h' Hrun; unfold StatObj_dump_yaml in Hrun;
      apply bind_Ok_inv in Hrun as (u & h1 & [-> _]%assert_Ok_inv & Hrun); [|done].
    unfold StatObj_call in Hrun.
    unfold bind at 1 in Hrun. unfold ret at 1 in Hrun.
    by apply (load_then_ret_keeps_store _ _ (fun v => _)) in Hrun.
  - intros a os [s|] h os' h' Hrun; [|done].
    unfold StatArray_dump, StatArray_call, foreach in Hrun. cbv zeta in Hrun.
    unfold bind at 1 in Hrun. unfold ret at 1 in Hrun.
    apply bind_Ok_inv in Hrun as (os1 & h1 & Hloop & Hr).
    unfold ret in Hr. simplify_eq.
    eapply foreach_from_keeps_store; [|exact Hloop].
    intros k s0 h0 s1 h1 Hb.
    by apply (load_then_ret_keeps_store _ _ (fun v => _)) in Hb.
  - intros a out [s|] h out' h' Hrun; [|done].
    unfold StatArray_dump_yaml, StatArray_call, foreach in Hrun. cbv zeta in Hrun.
    unfold bind at 1 in Hrun. unfold ret at 1 in Hrun.
    apply bind_Ok_inv in Hrun as (out1 & h1 & Hloop & Hr).
    unfold ret in Hr. simplify_eq.
    eapply foreach_from_keeps_store; [|exact Hloop].
    intros k s0 h0 s1 h1 Hb.
    by apply (load_then_ret_keeps_store _ _ (fun v => _)) in Hb.
Qed.

(** X8 on the text dump of an array of two zero counters and the YAML dump
    of a scalar bound to the first arena. *)
Lemma X8_dumps_keep_store_witness :
  (exists os' h',
     StatArray_dump (StatArray.mk (StatObjBase.mk None "latency_hist") 8 2 8 0)
                    ""%string (Some arena_X) two_slots = Ok (os', h') /\
     h' = two_slots) /\
  (exists out' h',
     StatObj_dump_yaml (StatObj.mk (StatObjBase.mk (Some arena_X) "hits") 8 0 65536)
                       [] (Some arena_X) two_slots = Ok (out', h') /\
     h' = two_slots).
Proof.
  split.
  - exists (array_text "latency_hist" [0; 0]), two_slots.
    split; [reflexivity|].
    apply (proj1 (proj2 (proj2 X8_dumps_keep_store))
             (StatArray.mk (StatObjBase.mk None "latency_hist") 8 2 8 0)
             ""%string (Some arena_X) two_slots
             (array_text "latency_hist" [0; 0]) two_slots).
    reflexivity.
  - exists [YKey; YScalar "hits"; YValue; YScalar "0"], two_slots.
    split; [reflexivity|].
    apply (proj1 (proj2 X8_dumps_keep_store)
             (StatObj.mk (StatObjBase.mk (Some arena_X) "hits") 8 0 65536)
             [] (Some arena_X) two_slots
             [YKey; YScalar "hits"; YValue; YScalar "0"] two_slots).
    reflexivity.
Defined.

(** X9: the YAML dump appends to what the emitter already holds and drops
    none of it.  For a scalar whose target is set it appends the key mark,
    the name, the value mark and the value of the cell in the arena given;
    for an array it appends the key mark, the name, the value mark, the
    flow mark, the sequence of the elements in index order between the
    sequence marks, and the block mark. *)
Theorem X9_yaml_dump_format :
  (forall d out s h v,
     StatObj.default_var d <> 0 ->
     peek h (wrap64 (Stats_base s + StatObj.offset d)) (StatObj.sizeofT d) = Some v ->
     StatObj_dump_yaml d out (Some s) h
     = Ok (out ++ [YKey; YScalar (StatObjBase.name (StatObj.super d)); YValue;
                   YScalar (show v)], h)) /\
  (forall a out s h vs,
     peek_elems h (wrap64 (Stats_base s + StatArray.offset a)) (StatArray.sizeofT a)
                0 (Z.to_nat (StatArray.size a)) = Some vs ->
     StatArray_dump_yaml a out (Some s) h
     = Ok (out ++ [YKey; YScalar (StatObjBase.name (StatArray.super a)); YValue;
                   YFlow; YBeginSeq]
               ++ map (fun v => YScalar (show v)) vs ++ [YEndSeq; YBlock], h)).
Proof.
  split.
  - intros d out s h v Hq Hv. unfold StatObj_dump_yaml, StatObj_call.
    rewrite bind_assert_ptr by done.
    unfold bind at 1. unfold ret at 1. rewrite (bind_load _ _ _ _ _ Hv).
    unfold ret, emit_W64. by rewrite <- app_assoc.
  - intros a out s h vs Hvs. by rewrite (StatArray_dump_yaml_elems _ _ _ _ _ Hvs).
Qed.

(** X9 on a scalar and an array of two in a zeroed arena. *)
Lemma X9_yaml_dump_format_witness :
  let d := StatObj.mk (StatObjBase.mk (Some arena_X) "hits") 8 0 65536 in
  let a := StatArray.mk (StatObjBase.mk None "latency_hist") 8 2 8 0 in
  StatObj_dump_yaml d [YBlock] (Some arena_X) two_slots
    = Ok ([YBlock] ++ [YKey; YScalar "hits"; YValue; YScalar (show 0)], two_slots) /\
  StatArray_dump_yaml a [YBlock] (Some arena_X) two_slots
    = Ok ([YBlock] ++ [YKey; YScalar "latency_hist"; YValue; YFlow; YBeginSeq]
            ++ map (fun v => YScalar (show v)) [0; 0] ++ [YEndSeq; YBlock], two_slots).
Proof.
  intros d a. split.
  - apply (proj1 X9_yaml_dump_format d [YBlock] arena_X two_slots 0);
      [discriminate|reflexivity].
  - apply (proj2 X9_yaml_dump_format a [YBlock] arena_X two_slots [0; 0]).
    reflexivity.
Defined.

(** ** Arrays: the empty array and the reach of [operator[]] *)

(** X10: an array of size 0 has no element to read: against any arena,
    owned or not, its text dump is the name, a colon, a space and a newline,
    its YAML dump an empty flow sequence, and its [add_stats] changes
    nothing; [operator[]] aborts on every index that is not negative. *)
Theorem X10_empty_array (a : StatArray.t) (s s' : Stats.t) (h : heap) :
  StatArray.size a = 0 ->
  (forall os, StatArray_dump a os (Some s) h
     = Ok ((os ++ StatObjBase.name (StatArray.super a) ++ ": " ++ newline)%string, h)) /\
  (forall out, StatArray_dump_yaml a out (Some s) h
     = Ok (out ++ [YKey; YScalar (StatObjBase.name (StatArray.super a)); YValue;
                   YFlow; YBeginSeq; YEndSeq; YBlock], h)) /\
  StatArray_add_stats a s s' h = Ok (tt, h) /\
  (forall index, 0 <= index -> StatArray_index a index h = AssertFail).
Proof.
  intros Hz. repeat apply conj.
  - intros os. unfold StatArray_dump, StatArray_call, foreach.
    rewrite Hz. change (Z.to_nat 0) with O. cbn [foreach_from].
    unfold bind, ret. by rewrite !append_assoc.
  - intros out. unfold StatArray_dump_yaml, StatArray_call, foreach.
    rewrite Hz. change (Z.to_nat 0) with O. cbn [foreach_from].
    unfold bind, ret. by rewrite <- app_assoc.
  - unfold StatArray_add_stats, StatArray_call, foreach.
    rewrite Hz. change (Z.to_nat 0) with O. cbn [foreach_from]. done.
  - intros index Hi. apply StatArray_index_above. lia.
Qed.

(** X10 on an array of no element, in the empty store. *)
Lemma X10_empty_array_witness :
  let a := StatArray.mk (StatObjBase.mk None "none") 8 0 0 0 in
  (forall os, StatArray_dump a os (Some arena_X) ∅
     = Ok ((os ++ "none" ++ ": " ++ newline)%string, ∅)) /\
  (forall out, StatArray_dump_yaml a out (Some arena_X) ∅
     = Ok (out ++ [YKey; YScalar "none"; YValue;
                   YFlow; YBeginSeq; YEndSeq; YBlock], ∅)) /\
  StatArray_add_stats a arena_X arena_Y ∅ = Ok (tt, ∅) /\
  (forall index, 0 <= index -> StatArray_index a index ∅ = AssertFail).
Proof.
  intros a. apply (X10_empty_array a arena_X arena_Y ∅). reflexivity.
Defined.

(** X11: [operator[]] never touches the store, and aborts exactly when the
    index is not below [size] or no target is set; for every other index,
    negative ones included, it returns the address
    [default_var + index * sizeof(T) * sizeof(T)] computed in 64 bits. *)
Theorem X11_index_outcome (a : StatArray.t) (index : Z) (h : heap) :
  (StatArray.size a <= index \/ StatArray.default_var a = 0 ->
   StatArray_index a index h = AssertFail) /\
  (index < StatArray.size a -> StatArray.default_var a <> 0 ->
   StatArray_index a index h
   = Ok (wrap64 (StatArray.default_var a
                 + index * StatArray.sizeofT a * StatArray.sizeofT a), h)).
Proof.
  split.
  - intros [Hi|Hv]; [by apply StatArray_index_above|].
    unfold StatArray_index, bind, assert, assert_ptr. rewrite Hv.
    by destruct (index <? StatArray.size a).
  - intros Hi Hv. rewrite StatArray_index_below by done.
    f_equal. f_equal. unfold wrap64.
    rewrite <- Zplus_mod_idemp_r, Zmult_mod_idemp_l, Zplus_mod_idemp_r. done.
Qed.

(** X11 on the example's array bound to the first arena. *)
Lemma X11_index_outcome_witness :
  let a := StatArray.mk (StatObjBase.mk (Some arena_X) "latency_hist") 8 4 8 65544 in
  StatArray_index a 4 ∅ = AssertFail /\
  StatArray_index a 3 ∅ = Ok (wrap64 (65544 + 3 * 8 * 8), ∅).
Proof.
  intros a. split.
  - apply (proj1 (X11_index_outcome a 4 ∅)). left. cbn. lia.
  - apply (proj2 (X11_index_outcome a 3 ∅)); [cbn; lia|discriminate].
Defined.

Lemma StatArray_value_peek (a : StatArray.t) (s : Stats.t) (i : Z) (h : heap) (v : Z) :
  peek h (wrap64 (Stats_base s + StatArray.offset a) + i * StatArray.sizeofT a)
         (StatArray.sizeofT a) = Some v ->
  StatArray_value a (Some s) i h = Ok (v, h).
Proof.
  intros Hv. unfold StatArray_value, StatArray_call, BaseArr_at, bind, ret, load.
  by rewrite Hv.
Qed.

(** X12: on an array bound to a live arena, a value assigned through
    [operator[]] at an in-range index is read back by [operator()], the path
    the dumps and [add_stats] take, at element [index * sizeof(T)], not at
    element [index]: when [sizeof(T)] is at least 2 and the index at least
    1, element [index] still holds what it held before the assignment. *)
Theorem X12_index_reaches_scaled_element
    (a : StatArray.t) (s : Stats.t) (index v : Z) (h : heap) :
  arena_ok s h ->
  StatObjBase.default_stats (StatArray.super a) = Some s ->
  StatArray.default_var a = wrap64 (Stats_base s + StatArray.offset a) ->
  0 < StatArray.sizeofT a -> 0 <= StatArray.offset a ->
  0 <= index < StatArray.size a ->
  StatArray.offset a + index * StatArray.sizeofT a * StatArray.sizeofT a
    + StatArray.sizeofT a <= STATS_SIZE ->
  exists h',
    StatArray_assign a index v h = Ok (tt, h') /\
    StatArray_value a (Some s) (index * StatArray.sizeofT a) h'
      = Ok (wrapT (StatArray.sizeofT a) v, h') /\
    (2 <= StatArray.sizeofT a -> 1 <= index ->
     exists x, StatArray_value a (Some s) index h = Ok (x, h) /\
               StatArray_value a (Some s) index h' = Ok (x, h')).
Proof.
  intros Hs Hdef Hdv Hsz Ho Hi Hfit.
  set (sz := StatArray.sizeofT a) in *. set (o := StatArray.offset a) in *.
  assert (0 <= index * sz) by nia.
  assert (index * sz <= index * sz * sz) by nia.
  destruct (slot_in_arena s h o sz Hs) as [Hp _]; [lia..|].
  destruct (slot_in_arena s h (o + index * sz * sz) sz Hs) as [_ Halw]; [lia..|].
  destruct (slot_in_arena s h (o + index * sz) sz Hs) as [_ Halr]; [lia..|].
  rewrite Hp in Hdv.
  destruct Hs as (Hb & Hw & _). unfold STATS_SIZE in *.
  destruct (poke_allocated h _ _ v Halw) as [h' Hh'].
  assert (StatArray_index a index h
          = Ok (Stats_base s + (o + index * sz * sz), h)) as Hidx.
  { rewrite StatArray_index_stride; fold sz; rewrite ?Hdv; try lia.
    f_equal. f_equal. lia. }
  exists h'. split; [|split].
  - unfold StatArray_assign, bind. rewrite Hidx. unfold store. fold sz. by rewrite Hh'.
  - apply StatArray_value_peek. fold sz o. rewrite Hp.
    rewrite <- (peek_poke_same _ _ _ _ _ (Z.lt_le_incl _ _ Hsz) Hh').
    f_equal. lia.
  - intros Hsz2 Hi1. destruct (peek_allocated _ _ _ Halr) as [x Hx].
    exists x. split; apply StatArray_value_peek; fold sz o; rewrite Hp.
    + rewrite <- Hx. f_equal. lia.
    + rewrite <- Hx. rewrite (peek_poke_disjoint _ _ _ _ _ _ _ Hh') by nia.
      f_equal. lia.
Qed.

(** X12 on the example's array, bound to the first arena, at index 1. *)
Lemma X12_index_reaches_scaled_element_witness :
  let a := StatArray.mk (StatObjBase.mk (Some arena_X) "latency_hist") 8 4 8 65544 in
  exists h',
    StatArray_assign a 1 7 two_arenas = Ok (tt, h') /\
    StatArray_value a (Some arena_X) (1 * 8) h' = Ok (wrapT 8 7, h') /\
    (2 <= 8 -> 1 <= 1 ->
     exists x, StatArray_value a (Some arena_X) 1 two_arenas = Ok (x, two_arenas) /\
               StatArray_value a (Some arena_X) 1 h' = Ok (x, h')).
Proof.
  intros a.
  apply (X12_index_reaches_scaled_element a arena_X 1 7 two_arenas);
    try reflexivity; try (cbn; unfold STATS_SIZE; lia).
  exact arena_X_ok.
Defined.

(** ** Arrays of one-byte counters *)

Lemma peek_byte (h : heap) (p b : Z) : h !! p = Some b -> peek h p 1 = Some b.
Proof.
  intros Hb. unfold peek. change (Z.to_nat 1) with 1%nat. cbn [read_bytes].
  rewrite Hb. cbn. f_equal. lia.
Qed.

Lemma poke_byte (h : heap) (p v : Z) :
  is_Some (h !! p) -> poke h p 1 v = Some (<[p := v mod 256]> h).
Proof.
  intros [b Hb]. unfold poke. change (Z.to_nat 1) with 1%nat.
  cbn [le_bytes write_bytes]. by rewrite Hb.
Qed.

Lemma peek_elems_low_bytes (h : heap) (arr i : Z) (n : nat) :
  (forall k, i <= k < i + Z.of_nat n -> h !! (arr + k) = Some (k mod 256)) ->
  peek_elems h arr 1 i n = Some (low_bytes_from i n).
Proof.
  revert i. induction n as [|n IH]; intros i Hk; [done|].
  cbn [peek_elems low_bytes_from]. unfold BaseArr_at. rewrite Z.mul_1_r.
  rewrite (peek_byte _ _ (i mod 256)) by (apply Hk; lia).
  rewrite IH; [done|]. intros k Hk'. apply Hk. lia.
Qed.

Lemma fill_bytes_loop (a : StatArray.t) (n : nat) (i : Z) (h : heap) :
  StatArray.sizeofT a = 1 -> 0 < StatArray.default_var a ->
  0 <= i -> i + Z.of_nat n <= StatArray.size a ->
  StatArray.default_var a + StatArray.size a <= 2 ^ 64 ->
  allocated h (StatArray.default_var a + i) (Z.of_nat n) ->
  exists h',
    foreach_from i n
      (fun i (_ : unit) =>
         p <- StatArray_index a i ;; store p (StatArray.sizeofT a) i) tt h
    = Ok (tt, h') /\
    (forall k, i <= k < i + Z.of_nat n ->
               h' !! (StatArray.default_var a + k) = Some (k mod 256)) /\
    (forall p, ~ (StatArray.default_var a + i <= p
                  < StatArray.default_var a + i + Z.of_nat n) ->
               h' !! p = h !! p).
Proof.
  intros Hsz Hdv. revert i h. induction n as [|n IH]; intros i h Hi Hn Hw Hal.
  - exists h. split; [done|]. split; [intros k Hk; lia|done].
  - assert (StatArray_index a i h = Ok (StatArray.default_var a + i, h)) as Hidx.
    { rewrite StatArray_index_stride; rewrite ?Hsz; try lia. f_equal. f_equal. lia. }
    assert (poke h (StatArray.default_var a + i) 1 i
            = Some (<[StatArray.default_var a + i := i mod 256]> h)) as Hp.
    { apply poke_byte, Hal. lia. }
    destruct (IH (i + 1) (<[StatArray.default_var a + i := i mod 256]> h))
      as (h' & Hrun & Hin & Hout); [lia..| |].
    { intros p Hp'. destruct (decide (StatArray.default_var a + i = p)) as [->|Hne].
      - rewrite lookup_insert_eq. by eexists.
      - rewrite lookup_insert_ne by done. apply Hal. lia. }
    assert ((p <- StatArray_index a i ;; store p (StatArray.sizeofT a) i) h
            = Ok (tt, <[StatArray.default_var a + i := i mod 256]> h)) as Hbody.
    { unfold bind. rewrite Hidx. unfold store. by rewrite Hsz, Hp. }
    exists h'. split; [|split].
    + cbn [foreach_from]. unfold bind at 1. cbv beta. rewrite Hbody. exact Hrun.
    + intros k Hk. destruct (decide (k = i)) as [->|Hne].
      * rewrite Hout by lia. apply lookup_insert_eq.
      * apply Hin. lia.
    + intros p Hp'. rewrite Hout by lia. apply lookup_insert_ne. lia.
Qed.

(** X13: for an array of one-byte counters bound to a live arena, writing
    [i] at every index [i] below [size] through [operator[]] and then
    dumping the array as YAML against that arena emits, in index order, the
    low byte of each index: the sequence 0, 1, ..., size-1 as long as
    [size] is at most 256. *)
Theorem X13_byte_array_fill_then_dump
    (a : StatArray.t) (s : Stats.t) (out : Emitter) (h : heap) :
  arena_ok s h ->
  StatArray.sizeofT a = 1 ->
  StatArray.default_var a = wrap64 (Stats_base s + StatArray.offset a) ->
  0 <= StatArray.offset a -> 0 < StatArray.size a ->
  StatArray.offset a + StatArray.size a <= STATS_SIZE ->
  exists h',
    (StatArray_fill_indices a ;;; StatArray_dump_yaml a out (Some s)) h
    = Ok (out ++ yaml_seq (StatObjBase.name (StatArray.super a))
                          (low_bytes_from 0 (Z.to_nat (StatArray.size a))), h').
Proof.
  intros Hs Hsz Hdv Ho Hn Hfit.
  destruct (slot_in_arena s h (StatArray.offset a) (StatArray.size a) Hs)
    as [Hp Hal]; [lia..|].
  rewrite Hp in Hdv. pose proof Hs as (Hb & Hw & _). unfold STATS_SIZE in *.
  destruct (fill_bytes_loop a (Z.to_nat (StatArray.size a)) 0 h)
    as (h' & Hrun & Hin & _); try lia.
  { rewrite Hdv, Z.add_0_r, Z2Nat.id by lia. exact Hal. }
  exists h'. unfold bind, StatArray_fill_indices, foreach. rewrite Hrun.
  apply StatArray_dump_yaml_elems. rewrite Hsz, Hp.
  apply peek_elems_low_bytes. intros k Hk. rewrite <- Hdv. apply Hin. lia.
Qed.

(** X13 on an array of three bytes at offset 8 of the first arena. *)
Lemma X13_byte_array_fill_then_dump_witness :
  let a := StatArray.mk (StatObjBase.mk (Some arena_X) "flags") 1 3 8 65544 in
  exists h',
    (StatArray_fill_indices a ;;; StatArray_dump_yaml a [] (Some arena_X)) two_arenas
    = Ok ([] ++ yaml_seq "flags" (low_bytes_from 0 (Z.to_nat 3)), h').
Proof.
  intros a.
  apply (X13_byte_array_fill_then_dump a arena_X [] two_arenas);
    try reflexivity; try (cbn; unfold STATS_SIZE; lia).
  exact arena_X_ok.
Defined.

(** ** Merging, leaf by leaf *)

Lemma leaf_cells_ok (l : Leaf) :
  Leaf_fits l ->
  Forall cell_fits (Leaf_cells l) /\ ForallOrdPairs cell_apart (Leaf_cells l).
Proof.
  intros Hfit. destruct (layout_cells [l]) as [H1 H2].
  - split; [constructor; [done|constructor]|].
    intros i j A B Hij Hi Hj. by destruct i as [|i], j as [|j].
  - cbn [flat_map] in H1, H2. by rewrite app_nil_r in H1, H2.
Qed.

Lemma outside_leaf_outside_cells (l : Leaf) (X : Stats.t) (p : Z) :
  Leaf_fits l ->
  ~ (Stats_base X + Leaf_offset l <= p
     < Stats_base X + Leaf_offset l + Leaf_bytes l) ->
  forall c, c ∈ Leaf_cells l ->
    ~ (Stats_base X + cell_offset c <= p
       < Stats_base X + cell_offset c + cell_size c).
Proof.
  intros (Hsz & Hn & _) Hp c (k & Hk & ->)%Leaf_cells_elem; [|done].
  unfold Leaf_bytes in Hp. unfold cell_offset, cell_size. cbn. nia.
Qed.

(** X14: [add_stats] of one leaf, from an arena Y into a different arena X,
    both live: every element of the leaf holds in X the sum of what it held
    in X and in Y, in the arithmetic of [T]; no byte of X outside the
    leaf's [sizeof(T) * count] bytes changes, and no byte of Y.  The
    descriptor's own target plays no part. *)
Theorem X14_leaf_add_stats_frame (l : Leaf) (X Y : Stats.t) (h : heap) :
  Leaf_fits l -> arena_ok X h -> arena_ok Y h -> arenas_apart X Y ->
  exists h',
    Leaf_add_stats l X Y h = Ok (tt, h') /\
    (forall p, ~ (Stats_base X + Leaf_offset l <= p
                  < Stats_base X + Leaf_offset l + Leaf_bytes l) ->
               h' !! p = h !! p) /\
    (forall i, 0 <= i < Leaf_count l ->
       exists x y,
         Leaf_value l X i h = Ok (x, h) /\
         Leaf_value l Y i h = Ok (y, h) /\
         Leaf_value l X i h' = Ok (wrapT (Leaf_sizeofT l) (x + y), h')).
Proof.
  intros Hfit HX HY Hap. destruct (leaf_cells_ok l Hfit) as [Hcfit Hcap].
  destruct (add_cells_spec X Y _ h HX HY Hap Hcfit Hcap) as (h' & Hrun & Hframe & Hcells).
  pose proof (arena_ok_range _ _ HX) as HrX.
  pose proof (arena_ok_range _ _ HY) as HrY.
  exists h'. split; [|split].
  - by rewrite Leaf_add_stats_cells.
  - intros p Hp. apply Hframe. by apply outside_leaf_outside_cells.
  - intros i Hi. pose proof Hfit as (Hsz & Hn & _).
    destruct (Hcells (Leaf_offset l + i * Leaf_sizeofT l, Leaf_sizeofT l))
      as (x & y & Hx & Hy & Hsum).
    { apply Leaf_cells_elem; [done|]. by exists i. }
    exists x, y. repeat split; by apply Leaf_value_peek.
Qed.

(** X14 on the example's array and two fresh arenas. *)
Lemma X14_leaf_add_stats_frame_witness :
  let l := LeafArr cache_latency_hist in
  exists h',
    Leaf_add_stats l arena_X arena_Y two_arenas = Ok (tt, h') /\
    (forall p, ~ (Stats_base arena_X + Leaf_offset l <= p
                  < Stats_base arena_X + Leaf_offset l + Leaf_bytes l) ->
               h' !! p = two_arenas !! p) /\
    (forall i, 0 <= i < Leaf_count l ->
       exists x y,
         Leaf_value l arena_X i two_arenas = Ok (x, two_arenas) /\
         Leaf_value l arena_Y i two_arenas = Ok (y, two_arenas) /\
         Leaf_value l arena_X i h' = Ok (wrapT (Leaf_sizeofT l) (x + y), h')).
Proof.
  intros l. apply (X14_leaf_add_stats_frame l arena_X arena_Y two_arenas).
  - unfold Leaf_fits, Leaf_bytes, STATS_SIZE. cbn. lia.
  - exact arena_X_ok.
  - exact arena_Y_ok.
  - exact arena_X_Y_apart.
Defined.

Lemma add_cells_self (X : Stats.t) (cs : list (Z * Z)) (h : heap) :
  arena_ok X h ->
  Forall cell_fits cs -> ForallOrdPairs cell_apart cs ->
  exists h',
    for_each (add_cell X X) cs h = Ok (tt, h') /\
    (forall i, (forall c, c ∈ cs ->
                  ~ (Stats_base X + cell_offset c <= i
                     < Stats_base X + cell_offset c + cell_size c)) ->
               h' !! i = h !! i) /\
    (forall c, c ∈ cs ->
       exists x,
         peek h (Stats_base X + cell_offset c) (cell_size c) = Some x /\
         peek h' (Stats_base X + cell_offset c) (cell_size c)
           = Some (wrapT (cell_size c) (x + x))).
Proof.
  intros HX Hfits Hord. revert h HX.
  induction Hord as [|c cs Hc Hord IH]; intros h HX.
  - exists h. split; [done|]. split; [done|]. intros c Hc. by apply elem_of_nil in Hc.
  - apply Forall_cons in Hfits as [Hfit Hfits].
    destruct (add_cell_spec X X c h HX HX Hfit) as (x & y & h1 & Hx & Hy & Hrun & Hp).
    assert (y = x) as -> by congruence.
    destruct (IH Hfits h1) as (h' & Hrest & Hframe & Hcells);
      [by eapply arena_ok_poke|].
    rewrite Forall_forall in Hc.
    exists h'. split; [|split].
    + cbn [for_each]. unfold bind. by rewrite Hrun.
    + intros i Hi. rewrite Hframe.
      * apply (poke_outside _ _ _ _ _ _ Hp). apply Hi. by left.
      * intros c' Hc'. apply Hi. by right.
    + intros c' [->|Hc']%elem_of_cons.
      * exists x. split; [done|]. destruct Hfit as (_ & Hsz & _).
        rewrite <- wrapT_idem.
        rewrite <- (peek_poke_same _ _ _ _ _ (Z.lt_le_incl _ _ Hsz) Hp).
        apply peek_ext. intros i Hi. apply Hframe. intros c' Hc'.
        specialize (Hc c' Hc'). unfold cell_apart in Hc. lia.
      * destruct (Hcells c' Hc') as (x' & Hx' & Hsum).
        exists x'. split; [|done].
        rewrite <- Hx'. symmetry. apply (peek_poke_disjoint _ _ _ _ _ _ _ Hp).
        specialize (Hc c' Hc'). unfold cell_apart in Hc. lia.
Qed.

(** X15: [add_stats] of a leaf from an arena into that same arena, as
    [stats += stats] does, doubles every element of the leaf in the
    arithmetic of [T] and changes no byte outside the leaf. *)
Theorem X15_self_add_stats_doubles (l : Leaf) (X : Stats.t) (h : heap) :
  Leaf_fits l -> arena_ok X h ->
  exists h',
    Leaf_add_stats l X X h = Ok (tt, h') /\
    (forall p, ~ (Stats_base X + Leaf_offset l <= p
                  < Stats_base X + Leaf_offset l + Leaf_bytes l) ->
               h' !! p = h !! p) /\
    (forall i, 0 <= i < Leaf_count l ->
       exists x,
         Leaf_value l X i h = Ok (x, h) /\
         Leaf_value l X i h' = Ok (wrapT (Leaf_sizeofT l) (x + x), h')).
Proof.
  intros Hfit HX. destruct (leaf_cells_ok l Hfit) as [Hcfit Hcap].
  destruct (add_cells_self X _ h HX Hcfit Hcap) as (h' & Hrun & Hframe & Hcells).
  pose proof (arena_ok_range _ _ HX) as HrX.
  exists h'. split; [|split].
  - by rewrite Leaf_add_stats_cells.
  - intros p Hp. apply Hframe. by apply outside_leaf_outside_cells.
  - intros i Hi. pose proof Hfit as (Hsz & Hn & _).
    destruct (Hcells (Leaf_offset l + i * Leaf_sizeofT l, Leaf_sizeofT l))
      as (x & Hx & Hsum).
    { apply Leaf_cells_elem; [done|]. by exists i. }
    exists x. split; by apply Leaf_value_peek.
Qed.

(** X15 on the example's scalar and the first arena. *)
Lemma X15_self_add_stats_doubles_witness :
  let l := LeafObj cache_hits in
  exists h',
    Leaf_add_stats l arena_X arena_X two_arenas = Ok (tt, h') /\
    (forall p, ~ (Stats_base arena_X + Leaf_offset l <= p
                  < Stats_base arena_X + Leaf_offset l + Leaf_bytes l) ->
               h' !! p = two_arenas !! p) /\
    (forall i, 0 <= i < Leaf_count l ->
       exists x,
         Leaf_value l arena_X i two_arenas = Ok (x, two_arenas) /\
         Leaf_value l arena_X i h' = Ok (wrapT (Leaf_sizeofT l) (x + x), h')).
Proof.
  intros l. apply (X15_self_add_stats_doubles l arena_X two_arenas).
  - unfold Leaf_fits, Leaf_bytes, STATS_SIZE. cbn. lia.
  - exact arena_X_ok.
Defined.

(** ** The explicit-arena form *)

Lemma StatObj_call_post_inc_spec
    (d : StatObj.t) (K : Stats.t) (h : heap) :
  Leaf_fits (LeafObj d) -> arena_ok K h ->
  exists v h',
    StatObj_call_post_inc d (Some K) h = Ok (v, h') /\
    StatObj_value d (Some K) h = Ok (v, h) /\
    StatObj_value d (Some K) h' = Ok (wrapT (StatObj.sizeofT d) (v + 1), h') /\
    (forall p, ~ (Stats_base K + StatObj.offset d <= p
                  < Stats_base K + StatObj.offset d + StatObj.sizeofT d) ->
               h' !! p = h !! p) /\
    (forall D x, arenas_apart K D -> arena_range D ->
       StatObj_value d (Some D) h = Ok (x, h) ->
       StatObj_value d (Some D) h' = Ok (x, h')).
Proof.
  intros (Hsz & _ & Ho & Hfit) HK. unfold Leaf_bytes in Hfit. cbn in Hsz, Ho, Hfit.
  destruct (slot_in_arena K h (StatObj.offset d) (StatObj.sizeofT d) HK)
    as [Hp Hal]; [lia..|].
  destruct (peek_allocated _ _ _ Hal) as [v Hv].
  destruct (poke_allocated h _ _ (wrapT (StatObj.sizeofT d) (v + 1)) Hal) as [h' Hh'].
  pose proof (peek_poke_same _ _ _ _ _ (Z.lt_le_incl _ _ Hsz) Hh') as Hr.
  rewrite wrapT_idem in Hr.
  exists v, h'. repeat apply conj.
  - unfold StatObj_call_post_inc, StatObj_call. cbv zeta.
    unfold bind at 1. unfold ret at 1. rewrite Hp.
    rewrite (bind_load _ _ _ _ _ Hv). by rewrite (bind_store _ _ _ _ _ _ Hh').
  - apply StatObj_value_peek. by rewrite Hp.
  - apply StatObj_value_peek. by rewrite Hp.
  - intros p Hp'. by apply (poke_outside _ _ _ _ _ _ Hh').
  - intros D x Hap [HD HD'] Hx.
    unfold StatObj_value, StatObj_call in Hx.
    unfold bind at 1 in Hx. unfold ret at 1 in Hx.
    apply load_Ok_inv in Hx as [_ Hx].
    apply StatObj_value_peek. rewrite <- Hx.
    apply (peek_poke_disjoint _ _ _ _ _ _ _ Hh').
    rewrite wrap64_small by (unfold STATS_SIZE in *; lia).
    unfold arenas_apart in Hap. lia.
Qed.

(** X16: [counter(stats)++], the use the comment of [operator()] gives:
    for a scalar lying inside the arena and a live arena [stats], it
    returns the value the counter has in [stats] and leaves that value plus
    one there, whatever the descriptor's own target is, a missing target
    included; no byte outside the counter's cell in [stats] changes, so the
    counter's value in any other arena is what it was. *)
Theorem X16_explicit_arena_post_inc
    (d : StatObj.t) (K : Stats.t) (h : heap) :
  Leaf_fits (LeafObj d) -> arena_ok K h ->
  exists v h',
    StatObj_call_post_inc d (Some K) h = Ok (v, h') /\
    StatObj_value d (Some K) h = Ok (v, h) /\
    StatObj_value d (Some K) h' = Ok (wrapT (StatObj.sizeofT d) (v + 1), h') /\
    (forall p, ~ (Stats_base K + StatObj.offset d <= p
                  < Stats_base K + StatObj.offset d + StatObj.sizeofT d) ->
               h' !! p = h !! p) /\
    (forall D x, arenas_apart K D -> arena_range D ->
       StatObj_value d (Some D) h = Ok (x, h) ->
       StatObj_value d (Some D) h' = Ok (x, h')).
Proof. apply StatObj_call_post_inc_spec. Qed.

(** X16 on the example's scalar, which has no target, and the second
    arena. *)
Lemma X16_explicit_arena_post_inc_witness :
  exists v h',
    StatObj_call_post_inc cache_hits (Some arena_Y) two_arenas = Ok (v, h') /\
    StatObj_value cache_hits (Some arena_Y) two_arenas = Ok (v, two_arenas) /\
    StatObj_value cache_hits (Some arena_Y) h'
      = Ok (wrapT (StatObj.sizeofT cache_hits) (v + 1), h') /\
    (forall p, ~ (Stats_base arena_Y + StatObj.offset cache_hits <= p
                  < Stats_base arena_Y + StatObj.offset cache_hits
                    + StatObj.sizeofT cache_hits) ->
               h' !! p = two_arenas !! p) /\
    (forall D x, arenas_apart arena_Y D -> arena_range D ->
       StatObj_value cache_hits (Some D) two_arenas = Ok (x, two_arenas) ->
       StatObj_value cache_hits (Some D) h' = Ok (x, h')).
Proof.
  apply (X16_explicit_arena_post_inc cache_hits arena_Y two_arenas).
  - unfold Leaf_fits, Leaf_bytes, STATS_SIZE. cbn. lia.
  - exact arena_Y_ok.
Defined.

(** ** Counters side by side *)

Lemma Leaf_value_Ok_peek (l : Leaf) (s : Stats.t) (k x : Z) (h h' : heap) :
  arena_range s -> Leaf_fits l -> 0 <= k < Leaf_count l ->
  Leaf_value l s k h = Ok (x, h') ->
  peek h (Stats_base s + (Leaf_offset l + k * Leaf_sizeofT l)) (Leaf_sizeofT l)
    = Some x.
Proof.
  intros [Hs Hs'] (Hsz & Hn & Ho & Hfit) Hk Hv. unfold Leaf_bytes in Hfit.
  destruct l as [d|a]; cbn in Hsz, Hn, Ho, Hfit, Hk |- *; cbn [Leaf_value] in Hv.
  - unfold StatObj_value, StatObj_call in Hv.
    unfold bind at 1 in Hv. unfold ret at 1 in Hv.
    apply load_Ok_inv in Hv as [_ Hv]. rewrite <- Hv.
    rewrite wrap64_small by (unfold STATS_SIZE in *; lia).
    assert (k = 0) as -> by lia. f_equal. lia.
  - unfold StatArray_value, StatArray_call, BaseArr_at in Hv.
    unfold bind at 1 in Hv. unfold ret at 1 in Hv.
    apply load_Ok_inv in Hv as [_ Hv]. rewrite <- Hv.
    rewrite wrap64_small by (unfold STATS_SIZE in *; nia).
    f_equal. lia.
Qed.

(** X17: of two descriptors the builder has constructed from declarations
    whose byte sizes all fit the [int] parameter of [get_offset],
    incrementing the one, a scalar, in a live arena leaves every element of
    the other in that arena as it was: counters packed side by side do not
    disturb each other. *)
Theorem X17_counters_do_not_interfere
    (ds : list decl) (b b' : StatsBuilder.t) (ls : list Leaf)
    (s : Stats.t) (h : heap) (i j : nat) (d : StatObj.t) (l : Leaf) :
  Forall decl_wf ds ->
  0 <= StatsBuilder.stat_offset b < STATS_SIZE ->
  construct_all ds b = Ok (ls, b') ->
  arena_ok s h ->
  i <> j -> ls !! i = Some (LeafObj d) -> ls !! j = Some l ->
  exists v h',
    StatObj_call_post_inc d (Some s) h = Ok (v, h') /\
    StatObj_value d (Some s) h' = Ok (wrapT (StatObj.sizeofT d) (v + 1), h') /\
    (forall k x, 0 <= k < Leaf_count l ->
       Leaf_value l s k h = Ok (x, h) -> Leaf_value l s k h' = Ok (x, h')).
Proof.
  intros Hwf Hc Hrun Hs Hij Hi Hj.
  destruct (constructed_layout_ok _ _ _ _ Hwf Hc Hrun) as [Hfits Hap].
  rewrite Forall_forall in Hfits.
  pose proof (Hfits _ (list_elem_of_lookup_2 _ _ _ Hi)) as Hfd.
  pose proof (Hfits _ (list_elem_of_lookup_2 _ _ _ Hj)) as Hfl.
  pose proof (Hap i j _ _ Hij Hi Hj) as Hdl.
  pose proof (arena_ok_range _ _ Hs) as Hr.
  destruct (StatObj_call_post_inc_spec d s h Hfd Hs) as (v & h' & Hinc & _ & Hv' & Hframe & _).
  exists v, h'. split; [done|]. split; [done|].
  intros k x Hk Hx. apply Leaf_value_peek; [done..|].
  rewrite <- (Leaf_value_Ok_peek _ _ _ _ _ _ Hr Hfl Hk Hx).
  apply peek_ext. intros p Hp. apply Hframe.
  destruct Hfl as (Hsz & Hn & Ho & Hb). destruct Hfd as (Hsz' & _ & Ho' & Hb').
  unfold Leaf_apart, Leaf_bytes in *. cbn in Hdl, Hsz', Ho', Hb'. nia.
Qed.

(** X17 on the example's two declarations: incrementing [hits] leaves
    [latency_hist] alone. *)
Lemma X17_counters_do_not_interfere_witness :
  let l := LeafArr cache_latency_hist in
  exists v h',
    StatObj_call_post_inc cache_hits (Some arena_X) two_arenas = Ok (v, h') /\
    StatObj_value cache_hits (Some arena_X) h'
      = Ok (wrapT (StatObj.sizeofT cache_hits) (v + 1), h') /\
    (forall k x, 0 <= k < Leaf_count l ->
       Leaf_value l arena_X k two_arenas = Ok (x, two_arenas) ->
       Leaf_value l arena_X k h' = Ok (x, h')).
Proof.
  intros l.
  apply (X17_counters_do_not_interfere
           [DeclObj "hits" 8 (StatsBuilder.rootNode StatsBuilder_ctor);
            DeclArr "latency_hist" 8 4 (StatsBuilder.rootNode StatsBuilder_ctor)]
           StatsBuilder_ctor
           (StatsBuilder.mk (StatsBuilder.rootNode StatsBuilder_ctor) 40)
           [LeafObj cache_hits; LeafArr cache_latency_hist]
           arena_X two_arenas 0%nat 1%nat cache_hits l).
  - repeat constructor; cbn; lia.
  - cbn. unfold STATS_SIZE. lia.
  - reflexivity.
  - exact arena_X_ok.
  - discriminate.
  - reflexivity.
  - reflexivity.
Defined.

(** ** Reservations of negative size *)

(** X18: [get_offset] takes a signed [int] and has no check on its sign: on
    a builder whose cursor is below the ceiling, a negative size that keeps
    the cursor at or above zero succeeds and moves the cursor back by that
    much; a negative size larger than the cursor wraps the unsigned cursor
    around and ends in the failed assertion. *)
Theorem X18_negative_reservation (b : StatsBuilder.t) (size : Z) :
  0 <= StatsBuilder.stat_offset b < STATS_SIZE ->
  - 2 ^ 31 <= size < 0 ->
  (0 <= StatsBuilder.stat_offset b + size ->
   StatsBuilder_get_offset size b =
     Ok (StatsBuilder.stat_offset b,
         StatsBuilder.mk (StatsBuilder.rootNode b)
                         (StatsBuilder.stat_offset b + size))) /\
  (StatsBuilder.stat_offset b + size < 0 ->
   StatsBuilder_get_offset size b = AssertFail).
Proof.
  intros Hc Hs. split; intros Hr.
  - apply get_offset_ok. lia.
  - apply get_offset_abort; lia.
Qed.

(** X18 on a builder with 40 bytes reserved. *)
Lemma X18_negative_reservation_witness :
  let root := StatsBuilder.rootNode StatsBuilder_ctor in
  StatsBuilder_get_offset (-8) (StatsBuilder.mk root 40)
    = Ok (40, StatsBuilder.mk root (40 + -8)) /\
  StatsBuilder_get_offset (-48) (StatsBuilder.mk root 40) = AssertFail.
Proof.
  intros root. split.
  - apply (X18_negative_reservation (StatsBuilder.mk root 40) (-8));
      cbn; unfold STATS_SIZE; lia.
  - apply (X18_negative_reservation (StatsBuilder.mk root 40) (-48));
      cbn; unfold STATS_SIZE; lia.
Defined.

(** ** Declarations whose sizes fit the parameter of [get_offset] *)

(** X19: descriptors constructed one after the other against the same
    builder, each of a type whose size fits the [int] that [get_offset]
    takes, get byte ranges [offset, offset + size) that do not overlap
    pairwise (size [sizeof(T)] for a scalar, [sizeof(T) * count] for an
    array), and the cursor after any prefix of the constructions is at most
    the cursor after all of them and at least the initial one. *)
Theorem X19_offsets_disjoint_cursor_monotone
    (ds : list decl) (b b' : StatsBuilder.t) (ls : list Leaf) :
  0 <= StatsBuilder.stat_offset b < STATS_SIZE ->
  Forall decl_wf ds ->
  construct_all ds b = Ok (ls, b') ->
  Forall2 leaf_of_decl ds ls /\
  pairwise_apart ls /\
  (forall ds1 ds2, ds = ds1 ++ ds2 ->
     exists ls1 b1,
       construct_all ds1 b = Ok (ls1, b1) /\
       StatsBuilder.stat_offset b <= StatsBuilder.stat_offset b1 /\
       StatsBuilder.stat_offset b1 <= StatsBuilder.stat_offset b').
Proof.
  intros Hc Hwf Hrun.
  destruct (construct_all_spec _ _ _ _ Hwf Hc Hrun) as (Hk & _ & _ & Hap).
  split; [done|]. split.
  - unfold pairwise_apart. apply ForallOrdPairs_lookup; [|done].
    apply Leaf_apart_sym.
  - intros ds1 ds2 ->.
    destruct (construct_all_app _ _ _ _ _ Hrun) as (ls1 & b1 & ls2 & H1 & H2 & _).
    apply Forall_app in Hwf as [Hwf1 Hwf2].
    destruct (construct_all_spec _ _ _ _ Hwf1 Hc H1) as (_ & Hm1 & _).
    assert (0 <= StatsBuilder.stat_offset b1 < STATS_SIZE) as Hc1 by lia.
    destruct (construct_all_spec _ _ _ _ Hwf2 Hc1 H2) as (_ & Hm2 & _).
    exists ls1, b1. repeat split; [done|lia..].
Qed.

(** X19 on the two declarations of the example registry. *)
Lemma X19_offsets_disjoint_cursor_monotone_witness :
  let root := StatsBuilder.rootNode StatsBuilder_ctor in
  let ds := [DeclObj "hits" 8 root; DeclArr "latency_hist" 8 4 root] in
  match construct_all ds StatsBuilder_ctor with
  | Ok (ls, b') =>
      Forall2 leaf_of_decl ds ls /\
      pairwise_apart ls /\
      (forall ds1 ds2, ds = ds1 ++ ds2 ->
         exists ls1 b1,
           construct_all ds1 StatsBuilder_ctor = Ok (ls1, b1) /\
           StatsBuilder.stat_offset StatsBuilder_ctor <= StatsBuilder.stat_offset b1 /\
           StatsBuilder.stat_offset b1 <= StatsBuilder.stat_offset b')
  | _ => False
  end.
Proof.
  intros root ds.
  destruct (construct_all ds StatsBuilder_ctor) as [[ls b']| |] eqn:Hrun;
    [|vm_compute in Hrun; discriminate..].
  apply (X19_offsets_disjoint_cursor_monotone ds StatsBuilder_ctor b' ls).
  - cbn. unfold STATS_SIZE. lia.
  - repeat constructor; cbn; lia.
  - exact Hrun.
Defined.
